(** * Diamond-square terrain synthesis and HGT tile lookup (procgenlib)

    A shallow embedding of [worldgenlib/synthesis/_diamond_square.py] and of
    the tile provider and the region extraction of
    [procgenlib/input/elevmodel.py], followed by the properties established
    about them.

    Conventions of the embedding:
    - Python integers are [Z]; [//] is [Z.div] and [%] is [Z.modulo]
      (both floor, as in Python, for the positive divisors used here).
    - float64 arithmetic is an interface ([Float64]) with two instances:
      the kernel's binary64 floats, on which the model runs, and the
      reals extended with a not-a-number element, on which closed forms
      are stated.
    - a numpy array is its shape and its cells; indexing follows numpy
      (negative indices wrap once, anything else out of range raises
      IndexError).
    - the random generator is an oracle; every batch drawn from it, every
      array allocation and every store into the height grid is recorded in
      a chronological trace that survives an exception.
    - the file system is an interface ([FileSystem]); the tile provider of
      [extract] is any function from a latitude and a longitude to a tile
      or an exception.
    - the latitudes and longitudes of [extract], floats in the source, are
      exact rationals; the tile indices and the buffer are integers as in
      the source. *)

From Stdlib Require Import ZArith List Bool Lia FinFun Floats Reals Lra.
From Stdlib Require Ascii String QArith Qround Lqa.
Import ListNotations.
Open Scope Z_scope.

Set Implicit Arguments.

(** ** Exceptions, events and the trace monad *)

(** [FuelExhausted] is not a Python exception: it marks a [while] loop cut
    off by the fuel of the model. It is shown unreachable below. *)
Inductive exn : Type :=
| ValueError
| AssertionError
| IndexError
| FuelExhausted.

Inductive draw : Type :=
| Exponential (shape : Z * Z)
| Normal (shape : Z * Z).

Inductive event : Type :=
| NpZeros (shape : Z * Z)
| NpFullLike (shape : Z * Z)
| Rng (d : draw)
| Store (r c : Z).

Definition trace := list event.

Inductive outcome (A : Type) : Type :=
| Ok (a : A) (tr : trace)
| Raise (e : exn) (tr : trace).

Arguments Raise {A} e tr.

Definition M (A : Type) : Type := trace -> outcome A.

Definition ret {A} (a : A) : M A := fun tr => Ok a tr.

Definition bind {A B} (m : M A) (k : A -> M B) : M B :=
  fun tr => match m tr with
            | Ok a tr' => k a tr'
            | Raise e tr' => Raise e tr'
            end.

Definition raise {A} (e : exn) : M A := fun tr => Raise e tr.

Definition emit (e : event) : M unit := fun tr => Ok tt (tr ++ [e]).

Definition py_assert (b : bool) : M unit :=
  if b then ret tt else raise AssertionError.

Declare Scope trace_monad_scope.
Delimit Scope trace_monad_scope with M.
Notation "x <- m ;; k" := (bind m (fun x => k))
  (at level 61, m at next level, right associativity) : trace_monad_scope.
Notation "m ;;; k" := (bind m (fun _ => k))
  (at level 61, right associativity) : trace_monad_scope.
Open Scope trace_monad_scope.

(** [for x in xs: a = body(x, a)] *)
Fixpoint foreach {X A} (xs : list X) (body : X -> A -> M A) (a : A) : M A :=
  match xs with
  | [] => ret a
  | x :: xs' => a' <- body x a ;; foreach xs' body a'
  end.

(** The batches drawn from the generator so far. *)
Fixpoint draws_of (tr : trace) : list draw :=
  match tr with
  | [] => []
  | Rng d :: tr' => d :: draws_of tr'
  | _ :: tr' => draws_of tr'
  end.

(** The cells of the height grid stored so far. *)
Fixpoint stores_of (tr : trace) : list (Z * Z) :=
  match tr with
  | [] => []
  | Store r c :: tr' => (r, c) :: stores_of tr'
  | _ :: tr' => stores_of tr'
  end.

(** ** Python ranges *)

(** [range(n)] *)
Definition py_range (n : Z) : list Z :=
  map Z.of_nat (seq 0 (Z.to_nat n)).

(** [range(start, stop, step)] for a positive [step]. *)
Definition py_range3 (start stop step : Z) : list Z :=
  map (fun k => start + Z.of_nat k * step)
      (seq 0 (Z.to_nat ((stop - start + step - 1) / step))).

(** The index pairs of [np.ndindex((a, b))], in row-major order. *)
Definition cells (shape : Z * Z) : list (Z * Z) :=
  flat_map (fun i => map (fun j => (i, j)) (py_range (snd shape)))
           (py_range (fst shape)).

(** [np.ndindex(shape)]: negative dimensions are refused. *)
Definition np_ndindex (shape : Z * Z) : M (list (Z * Z)) :=
  if (fst shape <? 0) || (snd shape <? 0) then raise ValueError
  else ret (cells shape).

(** ** float64 and arrays *)

Class Float64 (V : Type) : Type := {
  fadd : V -> V -> V;
  fmul : V -> V -> V;
  fdiv : V -> V -> V;
  of_Z : Z -> V;
  fsqrt : V -> V;
  fnan : V;
  isnan : V -> bool
}.

(** The generator as an oracle. [exp_variate hist i j scale] is the
    exponential variate of scale [scale] delivered at index [(i, j)] of a
    batch drawn after the batches [hist]; [norm_variate hist i j] the
    standard-normal one. [exp_accepts] is the generator's validation of a
    scale (numpy raises ValueError on a scale it refuses). *)
Class Generator (V : Type) : Type := {
  exp_accepts : V -> bool;
  exp_variate : list draw -> Z -> Z -> V -> V;
  norm_variate : list draw -> Z -> Z -> V
}.

Section Synthesis.

Context {V : Type} {F : Float64 V} {G : Generator V}.

Record ndarray : Type := {
  shape : Z * Z;
  item : Z -> Z -> V
}.

(** Index [k] on an axis of length [n]. *)
Definition norm_index (n k : Z) : option Z :=
  if (0 <=? k) && (k <? n) then Some k
  else if (- n <=? k) && (k <? 0) then Some (k + n)
  else None.

(** [a[r, c]] *)
Definition getitem (a : ndarray) (r c : Z) : M V :=
  match norm_index (fst (shape a)) r, norm_index (snd (shape a)) c with
  | Some r', Some c' => ret (item a r' c')
  | _, _ => raise IndexError
  end.

Definition update (a : ndarray) (r c : Z) (v : V) : ndarray :=
  {| shape := shape a;
     item := fun r' c' => if (r' =? r) && (c' =? c) then v else item a r' c' |}.

(** [h[r, c] = v] *)
Definition setitem (h : ndarray) (r c : Z) (v : V) : M ndarray :=
  match norm_index (fst (shape h)) r, norm_index (snd (shape h)) c with
  | Some r', Some c' => emit (Store r' c') ;;; ret (update h r' c' v)
  | _, _ => raise IndexError
  end.

(** [np.zeros(shape)] *)
Definition np_zeros (sh : Z * Z) : M ndarray :=
  if (fst sh <? 0) || (snd sh <? 0) then raise ValueError
  else emit (NpZeros sh) ;;; ret {| shape := sh; item := fun _ _ => of_Z 0 |}.

(** [np.full_like(h, v)] *)
Definition np_full_like (h : ndarray) (v : V) : M ndarray :=
  emit (NpFullLike (shape h)) ;;; ret {| shape := shape h; item := fun _ _ => v |}.

Definition shape_eqb (s t : Z * Z) : bool :=
  (fst s =? fst t) && (snd s =? snd t).

(** A scalar-or-array parameter ([Union[float, np.ndarray]]). *)
Inductive param : Type :=
| Scalar (v : V)
| Array (a : ndarray).

(** Lines 21-24 and 26-29: cast a parameter to a 2D array. *)
Definition cast_like (h : ndarray) (p : param) : M ndarray :=
  match p with
  | Scalar v => np_full_like h v
  | Array a => py_assert (shape_eqb (shape a) (shape h)) ;;; ret a
  end.

(** Number of indices of the slice [0 : n : step] of an axis of length [n]. *)
Definition strided_len (n step : Z) : Z :=
  if step <? 0 then 0 else (n + step - 1) / step.

(** [a[0 : n0 : step, 0 : n1 : step]] where [(n0, n1)] is the shape of [a]. *)
Definition strided (a : ndarray) (step : Z) : M ndarray :=
  if step =? 0 then raise ValueError
  else ret {| shape := (strided_len (fst (shape a)) step,
                        strided_len (snd (shape a)) step);
              item := fun i j => item a (i * step) (j * step) |}.

(** [rng.exponential(scale=scale)] *)
Definition rng_exponential (scale : ndarray) : M ndarray :=
  fun tr =>
    if forallb (fun ij => exp_accepts (item scale (fst ij) (snd ij)))
               (cells (shape scale))
    then Ok {| shape := shape scale;
               item := fun i j => exp_variate (draws_of tr) i j (item scale i j) |}
            (tr ++ [Rng (Exponential (shape scale))])
    else Raise ValueError tr.

(** [rng.normal(size=sh)] *)
Definition rng_normal (sh : Z * Z) : M ndarray :=
  fun tr =>
    Ok {| shape := sh; item := fun i j => norm_variate (draws_of tr) i j |}
       (tr ++ [Rng (Normal sh)]).

(** Elementwise product of two arrays of one shape. *)
Definition arr_mul (a b : ndarray) : ndarray :=
  {| shape := shape a; item := fun i j => fmul (item a i j) (item b i j) |}.

(** [x + a] for a scalar [x]. *)
Definition scalar_add (x : V) (a : ndarray) : ndarray :=
  {| shape := shape a; item := fun i j => fadd x (item a i j) |}.

Definition fsum (xs : list V) : V := fold_left fadd xs (of_Z 0).

(** [np.mean(xs)] *)
Definition np_mean (xs : list V) : V :=
  fdiv (fsum xs) (of_Z (Z.of_nat (length xs))).

(** [np.nanmean(xs)]: NaN entries count as absent. *)
Definition np_nanmean (xs : list V) : V :=
  fdiv (fsum (map (fun x => if isnan x then of_Z 0 else x) xs))
       (of_Z (Z.of_nat (length (filter (fun x => negb (isnan x)) xs)))).

(** [h[r, c] if guard else nan] *)
Definition sample (h : ndarray) (guard : bool) (r c : Z) : M V :=
  if guard then getitem h r c else ret fnan.

(** Lines 52-61: the diamond step. *)
Definition diamond_body (randoms : ndarray) (sz : Z) (current_scale : V)
    (ij : Z * Z) (h : ndarray) : M ndarray :=
  let i := fst ij in
  let j := snd ij in
  c1 <- getitem h (i * sz) (j * sz) ;;
  c2 <- getitem h (i * sz) ((j + 1) * sz) ;;
  c3 <- getitem h ((i + 1) * sz) ((j + 1) * sz) ;;
  c4 <- getitem h ((i + 1) * sz) (j * sz) ;;
  let c := np_mean [c1; c2; c3; c4] in
  r <- getitem randoms (i * sz + sz / 2) (j * sz + sz / 2) ;;
  let displacement := fmul current_scale r in
  setitem h (i * sz + sz / 2) (j * sz + sz / 2) (fadd c displacement).

Definition diamond_step (randoms : ndarray) (sz : Z) (num_squares : Z * Z)
    (current_scale : V) (h : ndarray) : M ndarray :=
  idx <- np_ndindex num_squares ;;
  foreach idx (diamond_body randoms sz current_scale) h.

(** Lines 69-72: the rows visited in column [j]. *)
Definition irange (num_squares : Z * Z) (j : Z) : list Z :=
  if j mod 2 =? 0 then py_range3 1 (fst num_squares) 2
  else py_range3 0 (fst num_squares + 1) 2.

(** Lines 75-84: one point of the square step. *)
Definition square_body (randoms : ndarray) (sz : Z) (num_squares : Z * Z)
    (current_scale : V) (j i : Z) (h : ndarray) : M ndarray :=
  c1 <- sample h (0 <? i) ((i - 1) * sz) (j * sz) ;;
  c2 <- sample h (0 <? j) (i * sz) ((j - 1) * sz) ;;
  c3 <- sample h (i <? fst num_squares - 1) ((i + 1) * sz) (j * sz) ;;
  c4 <- sample h (j <? snd num_squares - 1) (i * sz) ((j + 1) * sz) ;;
  let c := np_nanmean [c1; c2; c3; c4] in
  r <- getitem randoms (i * sz) (j * sz) ;;
  let displacement := fmul current_scale r in
  setitem h (i * sz) (j * sz) (fadd c displacement).

(** Lines 68-84: the square step. *)
Definition square_step (randoms : ndarray) (sz : Z) (num_squares : Z * Z)
    (current_scale : V) (h : ndarray) : M ndarray :=
  foreach (py_range3 0 (snd num_squares + 1) 1)
          (fun j h =>
             foreach (irange num_squares j)
                     (square_body randoms sz num_squares current_scale j) h)
          h.

(** Lines 48-86: the refinement loop. *)
Fixpoint refine (fuel : nat) (randoms : ndarray) (sz : Z) (num_squares : Z * Z)
    (current_scale : V) (h : ndarray) : M ndarray :=
  if 2 <=? sz then
    match fuel with
    | O => raise FuelExhausted
    | S fuel' =>
        py_assert (sz mod 2 =? 0) ;;;
        h <- diamond_step randoms sz num_squares current_scale h ;;
        let num_squares := (fst num_squares * 2, snd num_squares * 2) in
        let sz := sz / 2 in
        let current_scale := fdiv current_scale (fsqrt (of_Z 2)) in
        h <- square_step randoms sz num_squares current_scale h ;;
        let current_scale := fdiv current_scale (fsqrt (of_Z 2)) in
        refine fuel' randoms sz num_squares current_scale h
    end
  else ret h.

(** Lines 41-42: copy the corner values into the grid. *)
Definition corner_body (corner_values : ndarray) (sz : Z) (ij : Z * Z)
    (h : ndarray) : M ndarray :=
  v <- getitem corner_values (fst ij) (snd ij) ;;
  setitem h (fst ij * sz) (snd ij * sz) v.

(** Lines 17-46: everything before the refinement loop. The result is the
    grid with its corners set and the displacement field. *)
Definition initialise (square_size : Z) (num_squares : Z * Z)
    (primary_scale roughness : param) (base_level : V)
    : M (ndarray * ndarray) :=
  let sz := square_size in
  h <- np_zeros (fst num_squares * sz + 1, snd num_squares * sz + 1) ;;
  primary_scale <- cast_like h primary_scale ;;
  roughness <- cast_like h roughness ;;
  corner_scale <- strided primary_scale sz ;;
  variates <- rng_exponential corner_scale ;;
  let corner_values := scalar_add base_level variates in
  let scales := arr_mul primary_scale roughness in
  normals <- rng_normal (shape primary_scale) ;;
  let randoms := arr_mul scales normals in
  idx <- np_ndindex (fst num_squares + 1, snd num_squares + 1) ;;
  h <- foreach idx (corner_body corner_values sz) h ;;
  ret (h, randoms).

(** [diamond_square(rng, square_size, num_squares, primary_scale, roughness,
    base_level)], run from an empty trace. *)
Definition diamond_square (square_size : Z) (num_squares : Z * Z)
    (primary_scale roughness : param) (base_level : V) : outcome ndarray :=
  (hr <- initialise square_size num_squares primary_scale roughness base_level ;;
   refine (Z.to_nat square_size) (snd hr) square_size num_squares
          (fsqrt (of_Z 2)) (fst hr)) [].

End Synthesis.

Arguments ndarray V : clear implicits.
Arguments param V : clear implicits.

(** ** Instances *)

(** *** binary64 floats *)

Definition float_of_Z (z : Z) : float :=
  if z <? 0 then PrimFloat.opp (PrimFloat.of_uint63 (Uint63.of_Z (- z)))
  else PrimFloat.of_uint63 (Uint63.of_Z z).

#[export] Instance Binary64 : Float64 float := {|
  fadd := PrimFloat.add;
  fmul := PrimFloat.mul;
  fdiv := PrimFloat.div;
  of_Z := float_of_Z;
  fsqrt := PrimFloat.sqrt;
  fnan := PrimFloat.nan;
  isnan := PrimFloat.is_nan
|}.

(** A deterministic stand-in for a seeded generator, for running the
    model: the exponential variate at [(i, j)] is [scale * (1 + i + 2 j)]
    and the normal one is [(i - j) / 4]. Negative scales are refused. *)
#[export] Instance CountingGenerator : Generator float := {|
  exp_accepts := fun v => negb (PrimFloat.ltb v PrimFloat.zero);
  exp_variate := fun _ i j scale => PrimFloat.mul scale (float_of_Z (1 + i + 2 * j));
  norm_variate := fun _ i j => PrimFloat.div (float_of_Z (i - j)) (float_of_Z 4)
|}.

(** *** Reals with a not-a-number element

    [None] is NaN; a division by zero and the square root of a negative
    number are NaN as well (infinities and rounding are not represented). *)

Definition xreal := option R.

Definition xlift2 (f : R -> R -> R) (a b : xreal) : xreal :=
  match a, b with
  | Some x, Some y => Some (f x y)
  | _, _ => None
  end.

Definition xdiv (a b : xreal) : xreal :=
  match a, b with
  | Some x, Some y => if Req_dec_T y 0 then None else Some (x / y)%R
  | _, _ => None
  end.

Definition xsqrt (a : xreal) : xreal :=
  match a with
  | Some x => if Rlt_dec x 0 then None else Some (sqrt x)
  | None => None
  end.

Definition xisnan (a : xreal) : bool :=
  match a with Some _ => false | None => true end.

#[export] Instance ExtendedReal : Float64 xreal := {|
  fadd := xlift2 Rplus;
  fmul := xlift2 Rmult;
  fdiv := xdiv;
  of_Z := fun z => Some (IZR z);
  fsqrt := xsqrt;
  fnan := None;
  isnan := xisnan
|}.

(** ** Specification vocabulary *)

Section Vocabulary.

Context {V : Type} {F : Float64 V}.

(** The grid after the stores [h[pos x] = val x] for [x] in [xs], in order. *)
Definition put_all {X} (pos : X -> Z * Z) (val : X -> V) (xs : list X)
    (h : ndarray V) : ndarray V :=
  fold_left (fun h x => update h (fst (pos x)) (snd (pos x)) (val x)) xs h.

(** The value [sample] reads when the index is in range. *)
Definition pick (h : ndarray V) (guard : bool) (r c : Z) : V :=
  if guard then item h r c else fnan.

(** The value the diamond step stores at the centre of square [(i, j)]. *)
Definition diamond_value (randoms : ndarray V) (sz : Z) (current_scale : V)
    (h : ndarray V) (ij : Z * Z) : V :=
  let i := fst ij in
  let j := snd ij in
  fadd (np_mean [item h (i * sz) (j * sz);
                 item h (i * sz) ((j + 1) * sz);
                 item h ((i + 1) * sz) ((j + 1) * sz);
                 item h ((i + 1) * sz) (j * sz)])
       (fmul current_scale (item randoms (i * sz + sz / 2) (j * sz + sz / 2))).

Definition diamond_pos (sz : Z) (ij : Z * Z) : Z * Z :=
  (fst ij * sz + sz / 2, snd ij * sz + sz / 2).

(** The four guards of lines 77-80 with the lattice point each protects. *)
Definition directions (num_squares : Z * Z) (j i : Z) : list (bool * (Z * Z)) :=
  [ (0 <? i, (i - 1, j));
    (0 <? j, (i, j - 1));
    (i <? fst num_squares - 1, (i + 1, j));
    (j <? snd num_squares - 1, (i, j + 1)) ].

(** The neighbours the square step reads at lattice point [(i, j)]. *)
Definition used_neighbours (num_squares : Z * Z) (j i : Z) : list (Z * Z) :=
  map snd (filter fst (directions num_squares j i)).

(** The neighbours of lattice point [(i, j)] that lie on the lattice
    [0..num_squares[0]] x [0..num_squares[1]]. *)
Definition inbounds_neighbours (num_squares : Z * Z) (j i : Z) : list (Z * Z) :=
  filter (fun p => (0 <=? fst p) && (fst p <=? fst num_squares)
                   && (0 <=? snd p) && (snd p <=? snd num_squares))
         [(i - 1, j); (i, j - 1); (i + 1, j); (i, j + 1)].

(** The value the square step stores at lattice point [(i, j)]. *)
Definition square_value (randoms : ndarray V) (sz : Z) (num_squares : Z * Z)
    (current_scale : V) (h : ndarray V) (ji : Z * Z) : V :=
  let j := fst ji in
  let i := snd ji in
  fadd (np_nanmean
          (map (fun d => pick h (fst d) (fst (snd d) * sz) (snd (snd d) * sz))
               (directions num_squares j i)))
       (fmul current_scale (item randoms (i * sz) (j * sz))).

Definition square_pos (sz : Z) (ji : Z * Z) : Z * Z :=
  (snd ji * sz, fst ji * sz).

(** The lattice points [(j, i)] the square step visits, in order. *)
Definition square_points (num_squares : Z * Z) : list (Z * Z) :=
  flat_map (fun j => map (pair j) (irange num_squares j))
           (py_range3 0 (snd num_squares + 1) 1).

(** The cells the diamond step stores at square size [sz]. *)
Definition centre_of (sz r c : Z) : Prop :=
  r mod sz = sz / 2 /\ c mod sz = sz / 2.

(** The cells the square step stores at stride [sz]. *)
Definition midpoint_of (sz r c : Z) : Prop :=
  r mod sz = 0 /\ c mod sz = 0 /\ (r / sz + c / sz) mod 2 = 1.

(** [current_scale] on entry to the level-[k] iteration of the loop when
    the loop is entered with [s]. *)
Definition scale_at (s : V) (k : nat) : V :=
  Nat.iter k (fun s => fdiv (fdiv s (fsqrt (of_Z 2))) (fsqrt (of_Z 2))) s.

End Vocabulary.

Section LevelVocabulary.

Context {V : Type} {F : Float64 V}.

(** Every centre of the [N0 x N1] squares of size [sz] holds the value of
    the diamond step, computed from the grid itself. *)
Definition diamond_ok (randoms h : ndarray V) (sz N0 N1 : Z) (scale : V) : Prop :=
  forall i j, 0 <= i < N0 -> 0 <= j < N1 ->
    item h (i * sz + sz / 2) (j * sz + sz / 2)
    = diamond_value randoms sz scale h (i, j).

(** Every point of the square step on the lattice of stride [s] holds the
    value of the square step, computed from the grid itself. *)
Definition square_ok (randoms h : ndarray V) (s N0 N1 : Z) (scale : V) : Prop :=
  forall i j, 0 <= i <= N0 -> 0 <= j <= N1 -> (i + j) mod 2 = 1 ->
    item h (i * s) (j * s) = square_value randoms s (N0, N1) scale h (j, i).

(** Level [k] of a refinement that starts at square size [2 ^ n] with
    [N0 x N1] squares and scale [scale]. *)
Definition level_ok (randoms h : ndarray V) (n : nat) (N0 N1 : Z) (scale : V)
    (k : nat) : Prop :=
  diamond_ok randoms h (2 ^ Z.of_nat (n - k)) (N0 * 2 ^ Z.of_nat k)
             (N1 * 2 ^ Z.of_nat k) (scale_at scale k)
  /\ square_ok randoms h (2 ^ Z.of_nat (n - S k)) (N0 * 2 ^ Z.of_nat (S k))
               (N1 * 2 ^ Z.of_nat (S k))
               (fdiv (scale_at scale k) (fsqrt (of_Z 2))).

(** The cells of a grid with [N0 x N1] squares of size [sz]. *)
Definition in_grid (sz N0 N1 r c : Z) : Prop :=
  0 <= r <= N0 * sz /\ 0 <= c <= N1 * sz.

(** The lattice of stride [sz]. *)
Definition on_lattice (sz r c : Z) : Prop :=
  r mod sz = 0 /\ c mod sz = 0.

End LevelVocabulary.

(** The trace of a sequence of stores. *)
Definition store_events (st : list (Z * Z)) : trace :=
  map (fun p => Store (fst p) (snd p)) st.

Section RunVocabulary.

Context {V : Type} {F : Float64 V} {G : Generator V}.

(** The array a parameter is cast to for a grid of shape [sh]. *)
Definition param_array (sh : Z * Z) (p : param V) : ndarray V :=
  match p with
  | Scalar v => {| shape := sh; item := fun _ _ => v |}
  | Array a => a
  end.

(** The allocation the cast of a parameter performs. *)
Definition param_events (sh : Z * Z) (p : param V) : trace :=
  match p with
  | Scalar _ => [NpFullLike sh]
  | Array _ => []
  end.

(** An array parameter has the shape of the grid. *)
Definition param_ok (sh : Z * Z) (p : param V) : Prop :=
  match p with
  | Scalar _ => True
  | Array a => shape a = sh
  end.

Definition grid_shape (square_size : Z) (num_squares : Z * Z) : Z * Z :=
  (fst num_squares * square_size + 1, snd num_squares * square_size + 1).

Definition corner_shape (num_squares : Z * Z) : Z * Z :=
  (fst num_squares + 1, snd num_squares + 1).

(** The generator accepts the scale of every corner. *)
Definition scales_accepted (square_size : Z) (num_squares : Z * Z)
    (primary_scale : param V) : Prop :=
  forall i j, 0 <= i <= fst num_squares -> 0 <= j <= snd num_squares ->
    exp_accepts (item (param_array (grid_shape square_size num_squares) primary_scale)
                      (i * square_size) (j * square_size)) = true.

Definition corner_pos (square_size : Z) (ij : Z * Z) : Z * Z :=
  (fst ij * square_size, snd ij * square_size).

(** [base_level] plus the exponential variate of corner [(i, j)], drawn
    first from the generator. *)
Definition corner_value (square_size : Z) (num_squares : Z * Z)
    (primary_scale : param V) (base_level : V) (ij : Z * Z) : V :=
  fadd base_level
       (exp_variate [] (fst ij) (snd ij)
          (item (param_array (grid_shape square_size num_squares) primary_scale)
                (fst ij * square_size) (snd ij * square_size))).

(** The displacement field: scale times roughness times the normal batch,
    drawn after the exponential one. *)
Definition displacement_field (square_size : Z) (num_squares : Z * Z)
    (primary_scale roughness : param V) : ndarray V :=
  let sh := grid_shape square_size num_squares in
  let ps := param_array sh primary_scale in
  arr_mul (arr_mul ps (param_array sh roughness))
          {| shape := shape ps;
             item := fun i j =>
               norm_variate [Exponential (corner_shape num_squares)] i j |}.

(** The trace of lines 17-38: the allocations and the two batches. *)
Definition setup_events (square_size : Z) (num_squares : Z * Z)
    (primary_scale roughness : param V) : trace :=
  let sh := grid_shape square_size num_squares in
  [NpZeros sh] ++ param_events sh primary_scale ++ param_events sh roughness
  ++ [Rng (Exponential (corner_shape num_squares)); Rng (Normal sh)].

(** The stores of lines 41-42. *)
Definition corner_stores (square_size : Z) (num_squares : Z * Z) : list (Z * Z) :=
  map (corner_pos square_size) (cells (corner_shape num_squares)).

End RunVocabulary.

(** [s] reduces to 1 by repeated halving. *)
Inductive halves_to_one : Z -> Prop :=
| halves_one : halves_to_one 1
| halves_double (s : Z) : halves_to_one s -> halves_to_one (2 * s).





(** ** HGT tile provider ([procgenlib/input/elevmodel.py]) *)

Module Elevmodel.

Import Ascii String.
Local Open Scope string_scope.
Local Open Scope Z_scope.

(** [class Format(Enum)] *)
Inductive Format : Type := HGT | ZIP.

(** The exceptions the provider can let through. *)
Inductive io_exn : Type :=
| KeyError
| FileNotFoundError
| BadZipFile
| ValueError.

Inductive tile_result : Type :=
| Tile (a : ndarray Z)
| TileRaise (e : io_exn).

(** A format string, parsed: literal text and replacement fields. *)
Inductive segment : Type :=
| Lit (s : string)
| Field (name : string).

Record HgtTileProvider : Type := {
  _path : string;
  _format : Format;
  _case_convention : string;
  _zip_pattern : list segment
}.

(** The file system as the provider sees it. [path_exists dir name] is
    [(dir / name).exists()]; [read_file dir name] opens and reads
    [dir / name]; [read_zip_member dir zip member] opens the archive
    [dir / zip] and reads [member] from it. Bytes are numbers below 256. *)
Class FileSystem : Type := {
  path_exists : string -> string -> bool;
  read_file : string -> string -> io_exn + list Z;
  read_zip_member : string -> string -> string -> io_exn + list Z
}.

Fixpoint digits (fuel : nat) (n : N) (acc : string) : string :=
  match fuel with
  | O => acc
  | S fuel' =>
      let acc' := String (ascii_of_N (48 + n mod 10)) acc in
      if (n / 10 =? 0)%N then acc' else digits fuel' (n / 10) acc'
  end.

(** The decimal digits of a natural number. *)
Definition decimal (n : N) : string :=
  digits (S (N.to_nat (N.log2 n))) n "".

Fixpoint zeros (k : nat) : string :=
  match k with
  | O => ""
  | S k' => String "0" (zeros k')
  end.

Definition zero_pad (width : nat) (s : string) : string :=
  zeros (width - String.length s) ++ s.

(** [f"{z:0<width>d}"]: the sign counts in the width. *)
Definition format_d (width : nat) (z : Z) : string :=
  if z <? 0 then "-" ++ zero_pad (width - 1) (decimal (Z.to_N (- z)))
  else zero_pad width (decimal (Z.to_N z)).

Definition upper_ascii (c : ascii) : ascii :=
  let n := N_of_ascii c in
  if ((97 <=? n) && (n <=? 122))%N then ascii_of_N (n - 32) else c.

(** [s.upper()] on ASCII text. *)
Fixpoint upper (s : string) : string :=
  match s with
  | EmptyString => EmptyString
  | String c s' => String (upper_ascii c) (upper s')
  end.

(** [pattern.format(lat=lat, lon=lon)]; a field other than [lat] and
    [lon] raises KeyError. *)
Fixpoint format_pattern (pattern : list segment) (lat lon : string)
    : option string :=
  match pattern with
  | [] => Some ""
  | Lit s :: rest =>
      option_map (append s) (format_pattern rest lat lon)
  | Field name :: rest =>
      if String.eqb name "lat" then option_map (append lat) (format_pattern rest lat lon)
      else if String.eqb name "lon" then option_map (append lon) (format_pattern rest lat lon)
      else None
  end.

Definition tile_side : Z := 3601.

(** [np.zeros((3601, 3601), dtype=np.int16)] *)
Definition zero_tile : ndarray Z :=
  {| shape := (tile_side, tile_side); item := fun _ _ => 0 |}.

(** A big-endian signed 16-bit number from its two bytes. *)
Definition be_int16 (hi lo : Z) : Z :=
  let u := hi * 256 + lo in
  if u <? 32768 then u else u - 65536.

(** [np.frombuffer(raw, dtype='>i2').reshape((3601, 3601))] followed by
    [np.flip(_, axis=0)]. *)
Definition decode_tile (raw : list Z) : tile_result :=
  if Z.of_nat (List.length raw) =? 2 * tile_side * tile_side then
    Tile {| shape := (tile_side, tile_side);
            item := fun r c =>
              let k := Z.to_nat (2 * ((tile_side - 1 - r) * tile_side + c)) in
              be_int16 (nth k raw 0) (nth (S k) raw 0) |}
  else TileRaise ValueError.

Definition lat_string (lat : Z) : string :=
  if 0 <=? lat then "n" ++ format_d 2 lat
  else "s" ++ format_d 2 (- lat + 1).

Definition lon_string (lon : Z) : string :=
  if 0 <=? lon then "e" ++ format_d 3 lon
  else "w" ++ format_d 3 (- lon + 1).

(** Lines 47-49: the case convention applied to a name. *)
Definition cased (self : HgtTileProvider) (s : string) : string :=
  if String.eqb (_case_convention self) "upper" then upper s else s.

(** [HgtTileProvider.__call__] *)
Definition __call__ {FS : FileSystem} (self : HgtTileProvider) (lat lon : Z)
    : tile_result :=
  let lat_str := cased self (lat_string lat) in
  let lon_str := cased self (lon_string lon) in
  let filename := lat_str ++ lon_str ++ ".hgt" in
  match _format self with
  | ZIP =>
      match format_pattern (_zip_pattern self) lat_str lon_str with
      | None => TileRaise KeyError
      | Some zip_name =>
          if negb (path_exists (_path self) zip_name) then Tile zero_tile
          else
            match read_zip_member (_path self) zip_name filename with
            | inl e => TileRaise e
            | inr raw_data => decode_tile raw_data
            end
      end
  | HGT =>
      match read_file (_path self) filename with
      | inl e => TileRaise e
      | inr raw_data => decode_tile raw_data
      end
  end.

(** [class NASADEM_HGT(HgtTileProvider)] *)
Definition NASADEM_HGT (path : string) (format : Format) : HgtTileProvider :=
  {| _path := path; _format := format; _case_convention := "lower";
     _zip_pattern := [Lit "NASADEM_HGT_"; Field "lat"; Field "lon"; Lit ".zip"] |}.

(** [class SRTMGL1(HgtTileProvider)] *)
Definition SRTMGL1 (path : string) (format : Format) : HgtTileProvider :=
  {| _path := path; _format := format; _case_convention := "upper";
     _zip_pattern := [Field "lat"; Field "lon"; Lit ".SRTMGL1.hgt.zip"] |}.

(** A file system without any file. *)
Definition EmptyFileSystem : FileSystem := {|
  path_exists := fun _ _ => false;
  read_file := fun _ _ => inl FileNotFoundError;
  read_zip_member := fun _ _ _ => inl FileNotFoundError
|}.

End Elevmodel.

(** A computation that never runs out of fuel. *)
Definition fuelled {A} (m : M A) : Prop :=
  forall tr tr', m tr <> Raise FuelExhausted tr'.

(** The cells stored by a refinement that starts at square size [2 ^ n]
    with [N0] by [N1] squares, in the order of the source: level after
    level, the centres of the diamond step and then the points of the
    square step. *)
Fixpoint refine_stores (n : nat) (N0 N1 : Z) : list (Z * Z) :=
  match n with
  | O => []
  | S n' =>
      map (diamond_pos (2 ^ Z.of_nat n)) (cells (N0, N1))
      ++ map (square_pos (2 ^ Z.of_nat n')) (square_points (N0 * 2, N1 * 2))
      ++ refine_stores n' (N0 * 2) (N1 * 2)
  end.

(** ** Extraction of a region ([extract] of [procgenlib/input/elevmodel.py])

    Latitudes and longitudes are floats in the source; they are exact
    rationals here ([np.floor] is [Qfloor], [np.ceil] is [Qceiling]). *)

Module ElevmodelExtract.

Import QArith Qround String.
Local Open Scope Z_scope.

(** [Callable[[int, int], np.ndarray]]: a tile or the exception raised. *)
Definition tile_provider : Type := Z -> Z -> Elevmodel.tile_result.

Inductive result (A : Type) : Type :=
| Done (a : A)
| Fail (e : Elevmodel.io_exn).

Arguments Fail {A} e.

(** [for x in xs: a = body(x, a)], left at the first exception. *)
Fixpoint rfold {X A} (xs : list X) (body : X -> A -> result A) (a : A)
    : result A :=
  match xs with
  | [] => Done a
  | x :: xs' =>
      match body x a with
      | Done a' => rfold xs' body a'
      | Fail e => Fail e
      end
  end.

(** A bound [k] of a slice of step 1 on an axis of length [len]. *)
Definition slice_index (len k : Z) : Z :=
  if k <? 0 then Z.max (k + len) 0 else Z.min k len.

(** The first index and the end of the slice [start:stop]. *)
Definition slice_bounds (len start stop : Z) : Z * Z :=
  let lo := slice_index len start in
  (lo, Z.max lo (slice_index len stop)).

(** The cast of an integer to [np.int16]. *)
Definition int16 (v : Z) : Z := (v + 32768) mod 65536 - 32768.

(** An axis of length [d] broadcasts to an axis of length [n]. *)
Definition broadcasts (d n : Z) : bool := (d =? n) || (d =? 1).

(** [height[r0:r1, c0:c1] = tile] on an int16 buffer. *)
Definition assign_block (height : ndarray Z) (r0 r1 c0 c1 : Z)
    (tile : ndarray Z) : result (ndarray Z) :=
  let rb := slice_bounds (fst (shape height)) r0 r1 in
  let cb := slice_bounds (snd (shape height)) c0 c1 in
  if broadcasts (fst (shape tile)) (snd rb - fst rb)
     && broadcasts (snd (shape tile)) (snd cb - fst cb)
  then
    Done {| shape := shape height;
            item := fun r c =>
              if (fst rb <=? r) && (r <? snd rb) && (fst cb <=? c) && (c <? snd cb)
              then int16 (item tile
                            (if fst (shape tile) =? snd rb - fst rb
                             then r - fst rb else 0)
                            (if snd (shape tile) =? snd cb - fst cb
                             then c - fst cb else 0))
              else item height r c |}
  else Fail Elevmodel.ValueError.

(** [a[r0:r1, c0:c1].copy()] *)
Definition crop (a : ndarray Z) (r0 r1 c0 c1 : Z) : ndarray Z :=
  let rb := slice_bounds (fst (shape a)) r0 r1 in
  let cb := slice_bounds (snd (shape a)) c0 c1 in
  {| shape := (snd rb - fst rb, snd cb - fst cb);
     item := fun r c => item a (fst rb + r) (fst cb + c) |}.

(** Lines 129-131: fetch one tile and store it in the buffer. *)
Definition place_tile (tile_provider_fn : tile_provider)
    (tile_min_lat tile_min_lon lat lon : Z) (height : ndarray Z)
    : result (ndarray Z) :=
  match tile_provider_fn lat lon with
  | Elevmodel.TileRaise e => Fail e
  | Elevmodel.Tile tile_height =>
      assign_block height
        ((lat - tile_min_lat) * 3600) ((lat - tile_min_lat + 1) * 3600 + 1)
        ((lon - tile_min_lon) * 3600) ((lon - tile_min_lon + 1) * 3600 + 1)
        tile_height
  end.

(** Lines 119-131: the working buffer with every tile stored. *)
Definition merge_tiles (tile_provider_fn : tile_provider)
    (tile_min_lat tile_min_lon tile_max_lat tile_max_lon : Z)
    : result (ndarray Z) :=
  let rows := (tile_max_lat - tile_min_lat + 1) * 3600 + 1 in
  let cols := (tile_max_lon - tile_min_lon + 1) * 3600 + 1 in
  if (rows <? 0) || (cols <? 0) then Fail Elevmodel.ValueError
  else
    rfold (py_range3 tile_min_lat (tile_max_lat + 1) 1)
          (fun lat height =>
             rfold (py_range3 tile_min_lon (tile_max_lon + 1) 1)
                   (place_tile tile_provider_fn tile_min_lat tile_min_lon lat)
                   height)
          {| shape := (rows, cols); item := fun _ _ => 0 |}.

Record extracted : Type := {
  roi_height : ndarray Z;
  output_min_lat : Q;
  output_min_lon : Q;
  output_max_lat : Q;
  output_max_lon : Q
}.

(** [extract(tile_provider_fn, min_latitude, min_longitude, max_latitude,
    max_longitude)] *)
Definition extract (tile_provider_fn : tile_provider)
    (min_latitude min_longitude max_latitude max_longitude : Q)
    : result extracted :=
  let tile_min_lat := Qfloor min_latitude in
  let tile_min_lon := Qfloor min_longitude in
  let tile_max_lat := Qfloor max_latitude in
  let tile_max_lon := Qfloor max_longitude in
  match merge_tiles tile_provider_fn tile_min_lat tile_min_lon
                    tile_max_lat tile_max_lon with
  | Fail e => Fail e
  | Done height =>
      let lat_start := Qfloor ((min_latitude - inject_Z tile_min_lat) * 3600)%Q in
      let lon_start := Qfloor ((min_longitude - inject_Z tile_min_lon) * 3600)%Q in
      let lat_end := Qceiling ((max_latitude - inject_Z tile_min_lat) * 3600)%Q in
      let lon_end := Qceiling ((max_longitude - inject_Z tile_min_lon) * 3600)%Q in
      Done {| roi_height := crop height lat_start (lat_end + 1)
                                 lon_start (lon_end + 1);
              output_min_lat := (inject_Z tile_min_lat + inject_Z lat_start / 3600)%Q;
              output_min_lon := (inject_Z tile_min_lon + inject_Z lon_start / 3600)%Q;
              output_max_lat := (inject_Z tile_min_lat + inject_Z lat_end / 3600)%Q;
              output_max_lon := (inject_Z tile_min_lon + inject_Z lon_end / 3600)%Q |}
  end.




(** The tiles [first, first + 1, ...], [k] of them. *)
Definition span (first : Z) (k : nat) : list Z :=
  map (fun q => first + Z.of_nat q * 1) (seq 0 k).

(** The cell [(x, y)] of the buffer of [n] by [m] tiles as the stores
    leave it: tiles overlap on one line, and the tile stored last, the one
    further north or east, gives the value there. *)
Definition stitched (tiles : Z -> Z -> ndarray Z) (tile_min_lat tile_min_lon n m : Z)
    (x y : Z) : Z :=
  let i := Z.min (x / 3600) (n - 1) in
  let j := Z.min (y / 3600) (m - 1) in
  int16 (item (tiles (tile_min_lat + i) (tile_min_lon + j))
              (x - i * 3600) (y - j * 3600)).

(** The member name [__call__] reads. *)
Definition hgt_filename (self : Elevmodel.HgtTileProvider) (lat lon : Z)
    : String.string :=
  String.append (Elevmodel.cased self (Elevmodel.lat_string lat))
    (String.append (Elevmodel.cased self (Elevmodel.lon_string lon)) ".hgt"%string).

End ElevmodelExtract.

(** ** Traces and the monad *)

Lemma stores_of_app (tr1 tr2 : trace) :
  stores_of (tr1 ++ tr2) = stores_of tr1 ++ stores_of tr2.
Proof.
  induction tr1 as [|e tr1 IH]; simpl; [reflexivity|].
  destruct e; simpl; rewrite IH; reflexivity.
Qed.

Lemma draws_of_app (tr1 tr2 : trace) :
  draws_of (tr1 ++ tr2) = draws_of tr1 ++ draws_of tr2.
Proof.
  induction tr1 as [|e tr1 IH]; simpl; [reflexivity|].
  destruct e; simpl; rewrite IH; reflexivity.
Qed.

Lemma stores_of_map_Store {X} (pos : X -> Z * Z) (xs : list X) :
  stores_of (map (fun x => Store (fst (pos x)) (snd (pos x))) xs) = map pos xs.
Proof.
  induction xs as [|x xs IH]; simpl; [reflexivity|].
  rewrite IH. destruct (pos x); reflexivity.
Qed.

Lemma draws_of_map_Store {X} (pos : X -> Z * Z) (xs : list X) :
  draws_of (map (fun x => Store (fst (pos x)) (snd (pos x))) xs) = [].
Proof. induction xs as [|x xs IH]; simpl; auto. Qed.

Lemma bind_Ok {A B} (m : M A) (k : A -> M B) tr a tr' :
  m tr = Ok a tr' -> bind m k tr = k a tr'.
Proof. unfold bind. intros ->. reflexivity. Qed.

Lemma bind_Raise {A B} (m : M A) (k : A -> M B) tr e tr' :
  m tr = Raise e tr' -> bind m k tr = Raise e tr'.
Proof. unfold bind. intros ->. reflexivity. Qed.

Lemma foreach_app {X A} (xs ys : list X) (body : X -> A -> M A) a tr :
  foreach (xs ++ ys) body a tr
  = bind (foreach xs body a) (foreach ys body) tr.
Proof.
  revert a tr. induction xs as [|x xs IH]; intros a tr; simpl.
  - reflexivity.
  - unfold bind at 1. unfold bind at 2. unfold bind at 1.
    destruct (body x a tr) as [a' tr'|e tr']; [|reflexivity].
    rewrite IH. reflexivity.
Qed.

(** A nested loop is a loop over the pairs. *)
Lemma foreach_nested {X Y A} (xs : list X) (inner : X -> list Y)
    (body : X -> Y -> A -> M A) a tr :
  foreach xs (fun x a => foreach (inner x) (body x) a) a tr
  = foreach (flat_map (fun x => map (pair x) (inner x)) xs)
            (fun xy a => body (fst xy) (snd xy) a) a tr.
Proof.
  revert a tr. induction xs as [|x xs IH]; intros a tr; simpl; [reflexivity|].
  rewrite foreach_app. unfold bind.
  assert (E : forall ys a tr,
             foreach (map (pair x) ys) (fun xy a => body (fst xy) (snd xy) a) a tr
             = foreach ys (body x) a tr).
  { induction ys as [|y ys IHy]; intros a0 tr0; simpl; [reflexivity|].
    unfold bind. destruct (body x y a0 tr0); [apply IHy|reflexivity]. }
  rewrite E. destruct (foreach (inner x) (body x) a tr); [apply IH|reflexivity].
Qed.

(** ** Ranges *)

Lemma In_py_range (n k : Z) : In k (py_range n) <-> 0 <= k < n.
Proof.
  unfold py_range. rewrite in_map_iff. split.
  - intros (m & <- & Hm). apply in_seq in Hm. lia.
  - intros Hk. exists (Z.to_nat k). split; [lia|]. apply in_seq. lia.
Qed.

Lemma NoDup_py_range (n : Z) : NoDup (py_range n).
Proof.
  unfold py_range. apply Injective_map_NoDup.
  - intros a b Hab. lia.
  - apply seq_NoDup.
Qed.

Lemma In_py_range3 (start stop step k : Z) :
  0 < step ->
  In k (py_range3 start stop step)
  <-> start <= k < stop /\ (k - start) mod step = 0.
Proof.
  intros Hstep. unfold py_range3. rewrite in_map_iff. split.
  - intros (m & <- & Hm). apply in_seq in Hm.
    assert (Hq : Z.of_nat m < (stop - start + step - 1) / step) by lia.
    assert (Hq' : Z.of_nat m * step + step <= stop - start + step - 1).
    { pose proof (Z.mul_div_le (stop - start + step - 1) step Hstep). nia. }
    split; [nia|].
    replace (start + Z.of_nat m * step - start) with (Z.of_nat m * step) by lia.
    apply Z.mod_mul. lia.
  - intros [Hk Hmod].
    apply Z.mod_divide in Hmod; [|lia]. destruct Hmod as [q Hq].
    assert (0 <= q) by nia.
    exists (Z.to_nat q). split; [rewrite Z2Nat.id by lia; lia|].
    assert (q + 1 <= (stop - start + step - 1) / step).
    { apply Z.div_le_lower_bound; [lia|]. nia. }
    apply in_seq. lia.
Qed.

Lemma NoDup_py_range3 (start stop step : Z) :
  0 < step -> NoDup (py_range3 start stop step).
Proof.
  intros Hstep. unfold py_range3. apply Injective_map_NoDup.
  - intros a b Hab. nia.
  - apply seq_NoDup.
Qed.

Lemma In_cells (a b i j : Z) :
  In (i, j) (cells (a, b)) <-> 0 <= i < a /\ 0 <= j < b.
Proof.
  unfold cells. simpl. rewrite in_flat_map. split.
  - intros (i' & Hi & Hj). apply in_map_iff in Hj.
    destruct Hj as (j' & E & Hj). inversion E; subst.
    apply In_py_range in Hi. apply In_py_range in Hj. lia.
  - intros [Hi Hj]. exists i. split; [apply In_py_range; lia|].
    apply in_map. apply In_py_range. lia.
Qed.

(** Pairs built from duplicate-free rows over duplicate-free keys. *)
Lemma NoDup_pairs {X Y} (xs : list X) (inner : X -> list Y) :
  NoDup xs -> (forall x, In x xs -> NoDup (inner x)) ->
  NoDup (flat_map (fun x => map (pair x) (inner x)) xs).
Proof.
  induction 1 as [|x xs Hx Hxs IH]; intros Hin; simpl; [constructor|].
  apply NoDup_app.
  - apply Injective_map_NoDup.
    + intros a b E. inversion E. reflexivity.
    + apply Hin. left. reflexivity.
  - apply IH. intros y Hy. apply Hin. right. exact Hy.
  - intros [x' y'] H1 H2. apply in_map_iff in H1. destruct H1 as (y & E & _).
    inversion E; subst. apply in_flat_map in H2. destruct H2 as (x2 & Hx2 & H2).
    apply in_map_iff in H2. destruct H2 as (y2 & E2 & _). inversion E2; subst.
    contradiction.
Qed.

Lemma NoDup_cells (sh : Z * Z) : NoDup (cells sh).
Proof.
  unfold cells. apply NoDup_pairs.
  - apply NoDup_py_range.
  - intros. apply NoDup_py_range.
Qed.

(** ** Arrays and loops of stores *)

Section Loops.

Context {V : Type} {F : Float64 V} {G : Generator V}.

Lemma norm_index_inbounds (n k : Z) : 0 <= k < n -> norm_index n k = Some k.
Proof.
  intros Hk. unfold norm_index.
  destruct (0 <=? k) eqn:E1; [|lia]. destruct (k <? n) eqn:E2; [|lia].
  reflexivity.
Qed.

Lemma getitem_inbounds (a : ndarray V) (r c : Z) tr :
  0 <= r < fst (shape a) -> 0 <= c < snd (shape a) ->
  getitem a r c tr = Ok (item a r c) tr.
Proof.
  intros Hr Hc. unfold getitem.
  rewrite (norm_index_inbounds Hr), (norm_index_inbounds Hc). reflexivity.
Qed.

Lemma setitem_inbounds (h : ndarray V) (r c : Z) (v : V) tr :
  0 <= r < fst (shape h) -> 0 <= c < snd (shape h) ->
  setitem h r c v tr = Ok (update h r c v) (tr ++ [Store r c]).
Proof.
  intros Hr Hc. unfold setitem.
  rewrite (norm_index_inbounds Hr), (norm_index_inbounds Hc). reflexivity.
Qed.

Lemma item_update_same (h : ndarray V) r c v : item (update h r c v) r c = v.
Proof. simpl. rewrite !Z.eqb_refl. reflexivity. Qed.

Lemma item_update_other (h : ndarray V) r c v r' c' :
  (r', c') <> (r, c) -> item (update h r c v) r' c' = item h r' c'.
Proof.
  intros Hne. simpl.
  destruct (r' =? r) eqn:Er; [|reflexivity].
  destruct (c' =? c) eqn:Ec; [|reflexivity].
  exfalso. apply Hne. f_equal; lia.
Qed.

Section PutAll.

Context {X : Type} (pos : X -> Z * Z) (val : X -> V).

Lemma put_all_cons (x : X) (xs : list X) (h : ndarray V) :
  put_all pos val (x :: xs) h
  = put_all pos val xs (update h (fst (pos x)) (snd (pos x)) (val x)).
Proof. reflexivity. Qed.

Lemma shape_put_all (xs : list X) (h : ndarray V) :
  shape (put_all pos val xs h) = shape h.
Proof.
  revert h. induction xs as [|x xs IH]; intros h; [reflexivity|].
  rewrite put_all_cons, IH. reflexivity.
Qed.

Lemma item_put_all_other (xs : list X) (h : ndarray V) r c :
  ~ In (r, c) (map pos xs) ->
  item (put_all pos val xs h) r c = item h r c.
Proof.
  revert h. induction xs as [|x xs IH]; intros h Hnot; [reflexivity|].
  rewrite put_all_cons, IH.
  - apply item_update_other. intros E. apply Hnot. left.
    rewrite E. destruct (pos x); reflexivity.
  - intros Hin. apply Hnot. right. exact Hin.
Qed.

Lemma item_put_all_at (xs : list X) (h : ndarray V) x :
  NoDup (map pos xs) -> In x xs ->
  item (put_all pos val xs h) (fst (pos x)) (snd (pos x)) = val x.
Proof.
  revert h. induction xs as [|y xs IH]; intros h Hnd Hin; [destruct Hin|].
  simpl in Hnd. inversion Hnd as [|? ? Hy Hnd']; subst.
  rewrite put_all_cons.
  destruct Hin as [->|Hin].
  - rewrite item_put_all_other.
    + apply item_update_same.
    + destruct (pos x); exact Hy.
  - apply (IH _ Hnd' Hin).
Qed.

(** A loop whose iterations each store one cell of a set [W] and read
    nothing of [W] is the sequence of its stores, each value computed
    from the grid the loop started with. *)
Lemma foreach_writes (W : Z -> Z -> Prop)
    (body : X -> ndarray V -> M (ndarray V)) (h0 : ndarray V) (xs : list X) :
  (forall x, In x xs -> W (fst (pos x)) (snd (pos x))) ->
  (forall x h tr, In x xs -> shape h = shape h0 ->
     (forall r c, ~ W r c -> item h r c = item h0 r c) ->
     body x h tr = Ok (update h (fst (pos x)) (snd (pos x)) (val x))
                      (tr ++ [Store (fst (pos x)) (snd (pos x))])) ->
  forall h tr, shape h = shape h0 ->
    (forall r c, ~ W r c -> item h r c = item h0 r c) ->
    foreach xs body h tr
    = Ok (put_all pos val xs h)
         (tr ++ map (fun x => Store (fst (pos x)) (snd (pos x))) xs).
Proof.
  induction xs as [|x xs IH]; intros HW Hbody h tr Hsh Hag.
  - simpl. rewrite app_nil_r. reflexivity.
  - rewrite put_all_cons. cbn [foreach map].
    erewrite bind_Ok; [|apply Hbody; [left; reflexivity|exact Hsh|exact Hag]].
    rewrite IH.
    + rewrite <- app_assoc. reflexivity.
    + intros y Hy. apply HW. right. exact Hy.
    + intros y h' tr' Hy. apply Hbody. right. exact Hy.
    + exact Hsh.
    + intros r c Hnot. rewrite item_update_other; [apply Hag; exact Hnot|].
      intros E. inversion E; subst. apply Hnot. apply HW. left. reflexivity.
Qed.

End PutAll.

End Loops.

(** ** The two steps of one level *)

Section Steps.

Context {V : Type} {F : Float64 V} {G : Generator V}.

Lemma centre_mod (sz i : Z) : 2 <= sz -> (i * sz + sz / 2) mod sz = sz / 2.
Proof.
  intros Hsz. rewrite Z.add_comm, Z_mod_plus_full.
  apply Z.mod_small. split; [apply Z.div_pos; lia|].
  apply Z.div_lt_upper_bound; lia.
Qed.

Lemma half_pos (sz : Z) : 2 <= sz -> 1 <= sz / 2 < sz.
Proof.
  intros Hsz. split.
  - apply Z.div_le_lower_bound; lia.
  - apply Z.div_lt_upper_bound; lia.
Qed.

Lemma np_ndindex_nonneg (a b : Z) tr :
  0 <= a -> 0 <= b -> np_ndindex (a, b) tr = Ok (cells (a, b)) tr.
Proof.
  intros Ha Hb. unfold np_ndindex. simpl.
  destruct (a <? 0) eqn:E1; [lia|]. destruct (b <? 0) eqn:E2; [lia|].
  reflexivity.
Qed.

Lemma diamond_body_spec (randoms : ndarray V) sz N0 N1 scale (h0 h : ndarray V)
    i j tr :
  2 <= sz -> 0 <= i < N0 -> 0 <= j < N1 ->
  shape h0 = (N0 * sz + 1, N1 * sz + 1) -> shape randoms = shape h0 ->
  shape h = shape h0 ->
  (forall r c, ~ centre_of sz r c -> item h r c = item h0 r c) ->
  diamond_body randoms sz scale (i, j) h tr
  = Ok (update h (i * sz + sz / 2) (j * sz + sz / 2)
               (diamond_value randoms sz scale h0 (i, j)))
       (tr ++ [Store (i * sz + sz / 2) (j * sz + sz / 2)]).
Proof.
  intros Hsz Hi Hj Hsh0 Hshr Hsh Hag.
  pose proof (half_pos Hsz) as Hhalf.
  assert (Hcorner : forall a b, item h (a * sz) (b * sz) = item h0 (a * sz) (b * sz)).
  { intros a b. apply Hag. unfold centre_of. rewrite Z.mod_mul by lia. lia. }
  unfold diamond_body, bind. cbn [fst snd].
  rewrite !getitem_inbounds
    by (rewrite ?Hsh, ?Hshr, Hsh0; cbn [fst snd]; nia).
  rewrite setitem_inbounds
    by (rewrite ?Hsh, Hsh0; cbn [fst snd]; nia).
  unfold diamond_value. cbn [fst snd]. rewrite !Hcorner. reflexivity.
Qed.

Lemma diamond_step_spec (randoms : ndarray V) sz N0 N1 scale (h : ndarray V) tr :
  2 <= sz -> 0 <= N0 -> 0 <= N1 ->
  shape h = (N0 * sz + 1, N1 * sz + 1) -> shape randoms = shape h ->
  diamond_step randoms sz (N0, N1) scale h tr
  = Ok (put_all (diamond_pos sz) (diamond_value randoms sz scale h)
                (cells (N0, N1)) h)
       (tr ++ map (fun x => Store (fst (diamond_pos sz x)) (snd (diamond_pos sz x)))
                  (cells (N0, N1))).
Proof.
  intros Hsz HN0 HN1 Hsh Hshr. unfold diamond_step.
  erewrite bind_Ok; [|apply np_ndindex_nonneg; assumption].
  apply foreach_writes with (W := centre_of sz) (h0 := h); auto.
  - intros [i j] _. unfold diamond_pos, centre_of. cbn [fst snd].
    split; apply centre_mod; exact Hsz.
  - intros [i j] h' tr' Hin Hsh' Hag. apply In_cells in Hin.
    unfold diamond_pos. cbn [fst snd].
    apply (@diamond_body_spec randoms sz N0 N1); tauto.
Qed.

Lemma In_square_points (N0 N1 j i : Z) :
  N0 mod 2 = 0 ->
  In (j, i) (square_points (N0, N1))
  <-> 0 <= j <= N1 /\ 0 <= i <= N0 /\ (i + j) mod 2 = 1.
Proof.
  intros Heven. unfold square_points, irange. cbn [fst snd].
  rewrite in_flat_map. split.
  - intros (j' & Hj & Hi). apply in_map_iff in Hi.
    destruct Hi as (i' & E & Hi). inversion E; subst j' i'. clear E.
    apply In_py_range3 in Hj; [|lia].
    destruct (j mod 2 =? 0) eqn:Ej; apply In_py_range3 in Hi; try lia.
    + apply Z.eqb_eq in Ej.
      pose proof (Z.div_mod i 2). pose proof (Z.div_mod j 2).
      pose proof (Z.div_mod (i - 1) 2). pose proof (Z.div_mod (i + j) 2).
      pose proof (Z.div_mod N0 2).
      pose proof (Z.mod_pos_bound (i + j) 2). lia.
    + apply Z.eqb_neq in Ej.
      pose proof (Z.div_mod j 2). pose proof (Z.mod_pos_bound j 2).
      pose proof (Z.div_mod (i - 0) 2). pose proof (Z.div_mod (i + j) 2).
      pose proof (Z.mod_pos_bound (i + j) 2). lia.
  - intros (Hj & Hi & Hodd). exists j. split.
    + apply In_py_range3; [lia|]. split; [lia|]. apply Z.mod_1_r.
    + apply in_map.
      pose proof (Z.div_mod i 2). pose proof (Z.div_mod j 2).
      pose proof (Z.div_mod (i + j) 2). pose proof (Z.div_mod N0 2).
      pose proof (Z.mod_pos_bound i 2). pose proof (Z.mod_pos_bound j 2).
      destruct (j mod 2 =? 0) eqn:Ej; apply In_py_range3; try lia.
      * apply Z.eqb_eq in Ej. pose proof (Z.div_mod (i - 1) 2).
        pose proof (Z.mod_pos_bound (i - 1) 2). lia.
      * apply Z.eqb_neq in Ej. pose proof (Z.div_mod (i - 0) 2).
        pose proof (Z.mod_pos_bound (i - 0) 2). lia.
Qed.

Lemma NoDup_square_points (N : Z * Z) : NoDup (square_points N).
Proof.
  unfold square_points. apply NoDup_pairs.
  - apply NoDup_py_range3. lia.
  - intros j _. unfold irange. destruct (j mod 2 =? 0); apply NoDup_py_range3; lia.
Qed.

Lemma sample_pick (h0 h : ndarray V) (guard : bool) r c tr :
  (guard = true ->
   0 <= r < fst (shape h) /\ 0 <= c < snd (shape h)
   /\ item h r c = item h0 r c) ->
  sample h guard r c tr = Ok (pick h0 guard r c) tr.
Proof.
  intros Hg. unfold sample, pick. destruct guard; [|reflexivity].
  destruct (Hg eq_refl) as (Hr & Hc & E).
  rewrite getitem_inbounds by assumption. rewrite E. reflexivity.
Qed.

Lemma lattice_not_midpoint (s a b : Z) :
  1 <= s -> (a + b) mod 2 = 0 -> ~ midpoint_of s (a * s) (b * s).
Proof.
  intros Hs Heven (_ & _ & Hodd).
  rewrite !Z.div_mul in Hodd by lia. lia.
Qed.

Lemma lattice_midpoint (s a b : Z) :
  1 <= s -> (a + b) mod 2 = 1 -> midpoint_of s (a * s) (b * s).
Proof.
  intros Hs Hodd. unfold midpoint_of.
  rewrite !Z.mod_mul, !Z.div_mul by lia. auto.
Qed.

Lemma square_body_spec (randoms : ndarray V) s N0 N1 scale (h0 h : ndarray V)
    j i tr :
  1 <= s -> 0 <= i <= N0 -> 0 <= j <= N1 -> (i + j) mod 2 = 1 ->
  shape h0 = (N0 * s + 1, N1 * s + 1) -> shape randoms = shape h0 ->
  shape h = shape h0 ->
  (forall r c, ~ midpoint_of s r c -> item h r c = item h0 r c) ->
  square_body randoms s (N0, N1) scale j i h tr
  = Ok (update h (i * s) (j * s)
               (square_value randoms s (N0, N1) scale h0 (j, i)))
       (tr ++ [Store (i * s) (j * s)]).
Proof.
  intros Hs Hi Hj Hodd Hsh0 Hshr Hsh Hag.
  assert (Hnb : forall a b, (a + b) mod 2 = 0 ->
                 item h (a * s) (b * s) = item h0 (a * s) (b * s)).
  { intros a b Hab. apply Hag. apply lattice_not_midpoint; assumption. }
  assert (P1 : (i - 1 + j) mod 2 = 0).
  { pose proof (Z.div_mod (i + j) 2). pose proof (Z.div_mod (i - 1 + j) 2).
    pose proof (Z.mod_pos_bound (i - 1 + j) 2). lia. }
  assert (P2 : (i + (j - 1)) mod 2 = 0)
    by (replace (i + (j - 1)) with (i - 1 + j) by lia; exact P1).
  assert (P3 : (i + 1 + j) mod 2 = 0).
  { pose proof (Z.div_mod (i + j) 2). pose proof (Z.div_mod (i + 1 + j) 2).
    pose proof (Z.mod_pos_bound (i + 1 + j) 2). lia. }
  assert (P4 : (i + (j + 1)) mod 2 = 0)
    by (replace (i + (j + 1)) with (i + 1 + j) by lia; exact P3).
  unfold square_body, bind. cbn [fst snd].
  rewrite (@sample_pick h0 h (0 <? i))
    by (intros Hg; apply Z.ltb_lt in Hg; rewrite Hsh, Hsh0; cbn [fst snd];
        repeat split; try nia; apply Hnb; exact P1).
  rewrite (@sample_pick h0 h (0 <? j))
    by (intros Hg; apply Z.ltb_lt in Hg; rewrite Hsh, Hsh0; cbn [fst snd];
        repeat split; try nia; apply Hnb; exact P2).
  rewrite (@sample_pick h0 h (i <? N0 - 1))
    by (intros Hg; apply Z.ltb_lt in Hg; rewrite Hsh, Hsh0; cbn [fst snd];
        repeat split; try nia; apply Hnb; exact P3).
  rewrite (@sample_pick h0 h (j <? N1 - 1))
    by (intros Hg; apply Z.ltb_lt in Hg; rewrite Hsh, Hsh0; cbn [fst snd];
        repeat split; try nia; apply Hnb; exact P4).
  rewrite getitem_inbounds by (rewrite Hshr, Hsh0; cbn [fst snd]; nia).
  rewrite setitem_inbounds by (rewrite Hsh, Hsh0; cbn [fst snd]; nia).
  reflexivity.
Qed.

Lemma square_step_spec (randoms : ndarray V) s N0 N1 scale (h : ndarray V) tr :
  1 <= s -> 0 <= N0 -> 0 <= N1 -> N0 mod 2 = 0 ->
  shape h = (N0 * s + 1, N1 * s + 1) -> shape randoms = shape h ->
  square_step randoms s (N0, N1) scale h tr
  = Ok (put_all (square_pos s) (square_value randoms s (N0, N1) scale h)
                (square_points (N0, N1)) h)
       (tr ++ map (fun x => Store (fst (square_pos s x)) (snd (square_pos s x)))
                  (square_points (N0, N1))).
Proof.
  intros Hs HN0 HN1 Heven Hsh Hshr. unfold square_step.
  rewrite foreach_nested. fold (square_points (N0, N1)).
  apply foreach_writes with (W := midpoint_of s) (h0 := h); auto.
  - intros [j i] Hin. apply In_square_points in Hin; [|exact Heven].
    unfold square_pos. cbn [fst snd]. apply lattice_midpoint; tauto.
  - intros [j i] h' tr' Hin Hsh' Hag.
    apply In_square_points in Hin; [|exact Heven].
    unfold square_pos. cbn [fst snd].
    apply square_body_spec; tauto.
Qed.

End Steps.

(** ** Lattice arithmetic *)

Lemma mod_double (s r : Z) :
  1 <= s -> r mod (2 * s) = r mod s + s * ((r / s) mod 2).
Proof.
  intros Hs. rewrite (Z.mul_comm 2 s). apply Z.rem_mul_r; lia.
Qed.

Lemma bit_cases (a : Z) : a mod 2 = 0 \/ a mod 2 = 1.
Proof. pose proof (Z.mod_pos_bound a 2). lia. Qed.

Lemma double_half (s : Z) : 2 * s / 2 = s.
Proof. rewrite Z.mul_comm. apply Z.div_mul. lia. Qed.

Lemma centre_of_double (s r c : Z) :
  1 <= s ->
  centre_of (2 * s) r c
  <-> on_lattice s r c /\ (r / s) mod 2 = 1 /\ (c / s) mod 2 = 1.
Proof.
  intros Hs. unfold centre_of, on_lattice.
  rewrite double_half, !mod_double by exact Hs.
  pose proof (Z.mod_pos_bound r s). pose proof (Z.mod_pos_bound c s).
  destruct (bit_cases (r / s)) as [-> | ->];
    destruct (bit_cases (c / s)) as [-> | ->]; lia.
Qed.

Lemma on_lattice_double (s r c : Z) :
  1 <= s ->
  on_lattice (2 * s) r c
  <-> on_lattice s r c /\ (r / s) mod 2 = 0 /\ (c / s) mod 2 = 0.
Proof.
  intros Hs. unfold on_lattice.
  rewrite !mod_double by exact Hs.
  pose proof (Z.mod_pos_bound r s). pose proof (Z.mod_pos_bound c s).
  destruct (bit_cases (r / s)) as [-> | ->];
    destruct (bit_cases (c / s)) as [-> | ->]; lia.
Qed.

Lemma midpoint_of_bits (s r c : Z) :
  midpoint_of s r c
  <-> on_lattice s r c /\ (r / s) mod 2 + (c / s) mod 2 = 1.
Proof.
  unfold midpoint_of, on_lattice. rewrite Z.add_mod by lia.
  destruct (bit_cases (r / s)) as [-> | ->];
    destruct (bit_cases (c / s)) as [-> | ->];
    change ((0 + 0) mod 2) with 0; change ((0 + 1) mod 2) with 1;
    change ((1 + 0) mod 2) with 1; change ((1 + 1) mod 2) with 0;
    intuition lia.
Qed.

(** The cells of the lattice of stride [s] that are not on the lattice of
    stride [2 s] are the centres and the midpoints, and no cell is both. *)
Lemma lattice_refinement (s r c : Z) :
  1 <= s ->
  (on_lattice s r c /\ ~ on_lattice (2 * s) r c
   <-> centre_of (2 * s) r c \/ midpoint_of s r c)
  /\ ~ (centre_of (2 * s) r c /\ midpoint_of s r c).
Proof.
  intros Hs.
  rewrite centre_of_double, on_lattice_double, midpoint_of_bits by exact Hs.
  destruct (bit_cases (r / s)) as [-> | ->];
    destruct (bit_cases (c / s)) as [-> | ->]; intuition lia.
Qed.

(** ** The cells stored by one level *)

Lemma In_diamond_stores (sz N0 N1 r c : Z) :
  2 <= sz ->
  In (r, c) (map (diamond_pos sz) (cells (N0, N1)))
  <-> in_grid sz N0 N1 r c /\ centre_of sz r c.
Proof.
  intros Hsz. pose proof (half_pos Hsz) as Hhalf.
  unfold in_grid, centre_of. rewrite in_map_iff. split.
  - intros ([i j] & E & Hin). apply In_cells in Hin.
    unfold diamond_pos in E. cbn [fst snd] in E. inversion E; subst r c.
    rewrite !centre_mod by exact Hsz. repeat split; nia.
  - intros ((Hr & Hc) & Hmr & Hmc).
    pose proof (Z.div_mod r sz). pose proof (Z.div_mod c sz).
    exists (r / sz, c / sz). split.
    + unfold diamond_pos. cbn [fst snd]. f_equal; lia.
    + apply In_cells. assert (0 <= r / sz) by (apply Z.div_pos; lia).
      assert (0 <= c / sz) by (apply Z.div_pos; lia). nia.
Qed.

Lemma In_square_stores (s N0 N1 r c : Z) :
  1 <= s -> N0 mod 2 = 0 ->
  In (r, c) (map (square_pos s) (square_points (N0, N1)))
  <-> in_grid s N0 N1 r c /\ midpoint_of s r c.
Proof.
  intros Hs Heven. unfold in_grid. rewrite in_map_iff. split.
  - intros ([j i] & E & Hin). apply In_square_points in Hin; [|exact Heven].
    unfold square_pos in E. cbn [fst snd] in E. inversion E; subst r c.
    split; [nia|]. apply lattice_midpoint; tauto.
  - intros ((Hr & Hc) & Hmr & Hmc & Hodd).
    pose proof (Z.div_mod r s). pose proof (Z.div_mod c s).
    exists (c / s, r / s). split.
    + unfold square_pos. cbn [fst snd]. f_equal; lia.
    + apply In_square_points; [exact Heven|].
      assert (0 <= r / s) by (apply Z.div_pos; lia).
      assert (0 <= c / s) by (apply Z.div_pos; lia).
      repeat split; try nia; exact Hodd.
Qed.

Lemma NoDup_diamond_stores (sz : Z) (N : Z * Z) :
  2 <= sz -> NoDup (map (diamond_pos sz) (cells N)).
Proof.
  intros Hsz. apply Injective_map_NoDup; [|apply NoDup_cells].
  intros [i j] [i' j'] E. unfold diamond_pos in E. cbn [fst snd] in E.
  inversion E. f_equal; nia.
Qed.

Lemma NoDup_square_stores (s : Z) (N : Z * Z) :
  1 <= s -> NoDup (map (square_pos s) (square_points N)).
Proof.
  intros Hs. apply Injective_map_NoDup; [|apply NoDup_square_points].
  intros [j i] [j' i'] E. unfold square_pos in E. cbn [fst snd] in E.
  inversion E. f_equal; nia.
Qed.

Section ValueExtensionality.

Context {V : Type} {F : Float64 V}.

Lemma diamond_value_ext (randoms h h' : ndarray V) sz scale ij :
  (forall a b, item h' (a * sz) (b * sz) = item h (a * sz) (b * sz)) ->
  diamond_value randoms sz scale h' ij = diamond_value randoms sz scale h ij.
Proof. intros E. unfold diamond_value. rewrite !E. reflexivity. Qed.

Lemma neighbour_parity (i j : Z) :
  (i + j) mod 2 = 1 ->
  (i - 1 + j) mod 2 = 0 /\ (i + (j - 1)) mod 2 = 0
  /\ (i + 1 + j) mod 2 = 0 /\ (i + (j + 1)) mod 2 = 0.
Proof.
  intros Hodd.
  replace (i + (j - 1)) with (i - 1 + j) by lia.
  replace (i + (j + 1)) with (i + 1 + j) by lia.
  pose proof (Z.div_mod (i + j) 2). pose proof (Z.div_mod (i - 1 + j) 2).
  pose proof (Z.div_mod (i + 1 + j) 2).
  pose proof (Z.mod_pos_bound (i - 1 + j) 2).
  pose proof (Z.mod_pos_bound (i + 1 + j) 2). lia.
Qed.

(** The value of the square step at a point depends on the grid through
    the four neighbours of the point only. *)
Lemma square_value_ext (randoms h h' : ndarray V) s N scale j i :
  (i + j) mod 2 = 1 ->
  (forall a b, (a + b) mod 2 = 0 ->
     item h' (a * s) (b * s) = item h (a * s) (b * s)) ->
  square_value randoms s N scale h' (j, i) = square_value randoms s N scale h (j, i).
Proof.
  intros Hodd E. destruct (neighbour_parity i j Hodd) as (P1 & P2 & P3 & P4).
  unfold square_value, directions, pick. cbn [map fst snd].
  rewrite (E _ _ P1), (E _ _ P2), (E _ _ P3), (E _ _ P4). reflexivity.
Qed.

Lemma on_lattice_mul (s a b : Z) : 1 <= s -> on_lattice s (a * s) (b * s).
Proof. intros Hs. unfold on_lattice. rewrite !Z.mod_mul by lia. auto. Qed.

Lemma diamond_ok_stable (randoms h h' : ndarray V) s N0 N1 scale :
  1 <= s ->
  (forall r c, on_lattice s r c -> item h' r c = item h r c) ->
  diamond_ok randoms h (2 * s) N0 N1 scale ->
  diamond_ok randoms h' (2 * s) N0 N1 scale.
Proof.
  intros Hs Hpres Hok i j Hi Hj.
  rewrite (@diamond_value_ext randoms h h').
  - rewrite <- (Hok i j Hi Hj). apply Hpres.
    rewrite double_half.
    replace (i * (2 * s) + s) with ((2 * i + 1) * s) by lia.
    replace (j * (2 * s) + s) with ((2 * j + 1) * s) by lia.
    apply on_lattice_mul. exact Hs.
  - intros a b. apply Hpres.
    replace (a * (2 * s)) with (a * 2 * s) by lia.
    replace (b * (2 * s)) with (b * 2 * s) by lia.
    apply on_lattice_mul. exact Hs.
Qed.

Lemma square_ok_stable (randoms h h' : ndarray V) s N0 N1 scale :
  1 <= s ->
  (forall r c, on_lattice s r c -> item h' r c = item h r c) ->
  square_ok randoms h s N0 N1 scale ->
  square_ok randoms h' s N0 N1 scale.
Proof.
  intros Hs Hpres Hok i j Hi Hj Hodd.
  rewrite (@square_value_ext randoms h h'); [|exact Hodd|].
  - rewrite <- (Hok i j Hi Hj Hodd). apply Hpres. apply on_lattice_mul. exact Hs.
  - intros a b _. apply Hpres. apply on_lattice_mul. exact Hs.
Qed.

End ValueExtensionality.

(** ** One level of the refinement *)

Lemma store_events_map {X} (pos : X -> Z * Z) (xs : list X) :
  map (fun x => Store (fst (pos x)) (snd (pos x))) xs = store_events (map pos xs).
Proof. unfold store_events. rewrite map_map. reflexivity. Qed.

Lemma store_events_app (a b : list (Z * Z)) :
  store_events (a ++ b) = store_events a ++ store_events b.
Proof. apply map_app. Qed.

Lemma stores_of_store_events (st : list (Z * Z)) :
  stores_of (store_events st) = st.
Proof.
  induction st as [|[r c] st IH]; simpl; [reflexivity|]. rewrite IH. reflexivity.
Qed.

Lemma draws_of_store_events (st : list (Z * Z)) :
  draws_of (store_events st) = [].
Proof. induction st as [|[r c] st IH]; simpl; auto. Qed.

Lemma in_grid_double (s N0 N1 r c : Z) :
  in_grid s (N0 * 2) (N1 * 2) r c <-> in_grid (2 * s) N0 N1 r c.
Proof.
  unfold in_grid.
  replace (N0 * 2 * s) with (N0 * (2 * s)) by lia.
  replace (N1 * 2 * s) with (N1 * (2 * s)) by lia. tauto.
Qed.

Section Level.

Context {V : Type} {F : Float64 V} {G : Generator V}.

(** The diamond step at square size [2 s] followed by the square step at
    stride [s]: the cells stored are those of the lattice of stride [s] that
    are not on the lattice of stride [2 s], each once; the cells of the
    coarser lattice keep their values; the stored values are the two means
    plus displacement. *)
Lemma level_spec (randoms : ndarray V) s N0 N1 scale (h : ndarray V) tr :
  1 <= s -> 0 <= N0 -> 0 <= N1 ->
  shape h = (N0 * (2 * s) + 1, N1 * (2 * s) + 1) -> shape randoms = shape h ->
  exists h2 st,
    bind (diamond_step randoms (2 * s) (N0, N1) scale h)
         (fun h1 => square_step randoms s (N0 * 2, N1 * 2)
                                (fdiv scale (fsqrt (of_Z 2))) h1) tr
    = Ok h2 (tr ++ store_events st)
    /\ shape h2 = shape h
    /\ (forall r c, on_lattice (2 * s) r c -> item h2 r c = item h r c)
    /\ NoDup st
    /\ (forall r c, In (r, c) st
          <-> in_grid (2 * s) N0 N1 r c
              /\ on_lattice s r c /\ ~ on_lattice (2 * s) r c)
    /\ diamond_ok randoms h2 (2 * s) N0 N1 scale
    /\ square_ok randoms h2 s (N0 * 2) (N1 * 2) (fdiv scale (fsqrt (of_Z 2))).
Proof.
  intros Hs HN0 HN1 Hsh Hshr.
  assert (Hsz : 2 <= 2 * s) by lia.
  assert (Heven : (N0 * 2) mod 2 = 0) by (apply Z.mod_mul; lia).
  set (scale' := fdiv scale (fsqrt (of_Z 2))).
  set (dcells := cells (N0, N1)).
  set (spts := square_points (N0 * 2, N1 * 2)).
  set (h1 := put_all (diamond_pos (2 * s)) (diamond_value randoms (2 * s) scale h)
                     dcells h).
  set (h2 := put_all (square_pos s)
                     (square_value randoms s (N0 * 2, N1 * 2) scale' h1) spts h1).
  assert (Hsh1 : shape h1 = shape h) by apply shape_put_all.
  assert (Hsh1' : shape h1 = (N0 * 2 * s + 1, N1 * 2 * s + 1)).
  { rewrite Hsh1, Hsh. f_equal; lia. }
  (* cells untouched by each step *)
  assert (Hd_other : forall r c, ~ centre_of (2 * s) r c -> item h1 r c = item h r c).
  { intros r c Hn. apply item_put_all_other. intros Hin.
    apply In_diamond_stores in Hin; [|exact Hsz]. tauto. }
  assert (Hs_other : forall r c, ~ midpoint_of s r c -> item h2 r c = item h1 r c).
  { intros r c Hn. apply item_put_all_other. intros Hin.
    apply In_square_stores in Hin; [|exact Hs|exact Heven]. tauto. }
  assert (Hcoarse : forall r c, on_lattice (2 * s) r c -> item h2 r c = item h r c).
  { intros r c Hl. destruct (lattice_refinement r c Hs) as [Hiff _].
    rewrite Hs_other, Hd_other; [reflexivity| |]; intros Hx;
      (assert (Hy : on_lattice s r c /\ ~ on_lattice (2 * s) r c)
         by (apply Hiff; tauto)); tauto. }
  exists h2, (map (diamond_pos (2 * s)) dcells ++ map (square_pos s) spts).
  split; [|split; [|split; [|split; [|split; [|split]]]]].
  - erewrite bind_Ok; [|apply diamond_step_spec; assumption].
    fold dcells h1. rewrite square_step_spec; try assumption.
    + fold spts scale' h2. rewrite !store_events_map, store_events_app, app_assoc.
      reflexivity.
    + lia.
    + lia.
    + rewrite Hshr. symmetry. exact Hsh1.
  - unfold h2. rewrite shape_put_all. exact Hsh1.
  - exact Hcoarse.
  - apply NoDup_app.
    + apply NoDup_diamond_stores. exact Hsz.
    + apply NoDup_square_stores. exact Hs.
    + intros [r c] Hin1 Hin2. unfold dcells in Hin1. unfold spts in Hin2.
      apply In_diamond_stores in Hin1; [|exact Hsz].
      apply In_square_stores in Hin2; [|exact Hs|exact Heven].
      destruct (lattice_refinement r c Hs) as [_ Hex]. tauto.
  - intros r c. unfold dcells, spts. rewrite in_app_iff.
    rewrite In_diamond_stores by exact Hsz.
    rewrite In_square_stores by assumption.
    rewrite in_grid_double.
    destruct (lattice_refinement r c Hs) as [Hiff _]. tauto.
  - intros i j Hi Hj.
    rewrite (@diamond_value_ext V F randoms h h2).
    + rewrite Hs_other.
      * apply (item_put_all_at (diamond_pos (2 * s))
                 (diamond_value randoms (2 * s) scale h) dcells h (i, j)).
        -- apply NoDup_diamond_stores. exact Hsz.
        -- apply In_cells. lia.
      * intros Hmid. destruct (lattice_refinement
                                 (i * (2 * s) + 2 * s / 2) (j * (2 * s) + 2 * s / 2) Hs)
          as [_ Hex].
        apply Hex. split; [|exact Hmid].
        split; apply centre_mod; exact Hsz.
    + intros a b. apply Hcoarse.
      replace (a * (2 * s)) with (a * (2 * s)) by lia. apply on_lattice_mul. lia.
  - intros i j Hi Hj Hodd.
    rewrite (@square_value_ext V F randoms h1 h2); [|exact Hodd|].
    + apply (item_put_all_at (square_pos s)
               (square_value randoms s (N0 * 2, N1 * 2) scale' h1) spts h1 (j, i)).
      * apply NoDup_square_stores. exact Hs.
      * apply In_square_points; [exact Heven|]. tauto.
    + intros a b Hab. apply Hs_other. apply lattice_not_midpoint; assumption.
Qed.

End Level.

(** ** The refinement loop *)

Section Refinement.

Context {V : Type} {F : Float64 V} {G : Generator V}.

Lemma refine_done fuel (randoms : ndarray V) sz N scale h tr :
  sz < 2 -> refine fuel randoms sz N scale h tr = Ok h tr.
Proof.
  intros Hsz. destruct fuel; simpl;
    (destruct (2 <=? sz) eqn:E; [apply Z.leb_le in E; lia|reflexivity]).
Qed.

Lemma refine_step fuel (randoms : ndarray V) sz N scale h tr :
  2 <= sz -> sz mod 2 = 0 ->
  refine (S fuel) randoms sz N scale h tr
  = bind (bind (diamond_step randoms sz N scale h)
               (fun h1 => square_step randoms (sz / 2) (fst N * 2, snd N * 2)
                                      (fdiv scale (fsqrt (of_Z 2))) h1))
         (fun h2 => refine fuel randoms (sz / 2) (fst N * 2, snd N * 2)
                           (fdiv (fdiv scale (fsqrt (of_Z 2))) (fsqrt (of_Z 2)))
                           h2) tr.
Proof.
  intros Hsz Hmod. cbn [refine].
  destruct (2 <=? sz) eqn:E; [|apply Z.leb_gt in E; lia].
  rewrite Hmod. cbn [Z.eqb py_assert]. unfold bind, ret.
  destruct (diamond_step randoms sz N scale h tr); [|reflexivity].
  destruct (square_step _ _ _ _ _ _); reflexivity.
Qed.

Lemma scale_at_succ (scale : V) (k : nat) :
  scale_at scale (S k)
  = scale_at (fdiv (fdiv scale (fsqrt (of_Z 2))) (fsqrt (of_Z 2))) k.
Proof. unfold scale_at. rewrite Nat.iter_succ_r. reflexivity. Qed.

Lemma pow2_succ (n : nat) : 2 ^ Z.of_nat (S n) = 2 * 2 ^ Z.of_nat n.
Proof. rewrite Nat2Z.inj_succ. apply Z.pow_succ_r. lia. Qed.

Lemma pow2_pos (n : nat) : 1 <= 2 ^ Z.of_nat n.
Proof. pose proof (Z.pow_pos_nonneg 2 (Z.of_nat n)). lia. Qed.

(** The loop entered at square size [2 ^ n] with enough fuel returns; it
    stores each cell off the lattice of stride [2 ^ n] once and nothing
    else, leaves the cells of that lattice as they were, draws nothing and
    leaves every level's values in the grid. *)
Lemma refine_valid (randoms : ndarray V) (n : nat) :
  forall fuel N0 N1 scale (h : ndarray V) tr,
    (n <= fuel)%nat -> 0 <= N0 -> 0 <= N1 ->
    shape h = (N0 * 2 ^ Z.of_nat n + 1, N1 * 2 ^ Z.of_nat n + 1) ->
    shape randoms = shape h ->
    exists h' st,
      refine fuel randoms (2 ^ Z.of_nat n) (N0, N1) scale h tr
      = Ok h' (tr ++ store_events st)
      /\ shape h' = shape h
      /\ (forall r c, on_lattice (2 ^ Z.of_nat n) r c -> item h' r c = item h r c)
      /\ NoDup st
      /\ (forall r c, In (r, c) st
            <-> in_grid (2 ^ Z.of_nat n) N0 N1 r c
                /\ ~ on_lattice (2 ^ Z.of_nat n) r c)
      /\ (forall k, (k < n)%nat -> level_ok randoms h' n N0 N1 scale k).
Proof.
  induction n as [|n IH]; intros fuel N0 N1 scale h tr Hfuel HN0 HN1 Hsh Hshr.
  - exists h, []. change (2 ^ Z.of_nat 0) with 1.
    rewrite refine_done by lia. simpl. rewrite app_nil_r.
    split; [reflexivity|]. split; [reflexivity|]. split; [reflexivity|].
    split; [constructor|]. split.
    + intros r c. split; [intros []|].
      intros [_ Hn]. apply Hn. unfold on_lattice. rewrite !Z.mod_1_r. auto.
    + intros k Hk. lia.
  - destruct fuel as [|fuel]; [lia|].
    pose proof (pow2_pos n) as Hs. rewrite pow2_succ in *.
    set (s := 2 ^ Z.of_nat n) in *.
    rewrite refine_step; [|lia|rewrite Z.mul_comm; apply Z.mod_mul; lia].
    rewrite double_half. cbn [fst snd].
    destruct (@level_spec V F randoms s N0 N1 scale h tr Hs HN0 HN1 Hsh Hshr)
      as (h2 & st1 & Hrun & Hsh2 & Hcoarse & Hnd1 & Hin1 & Hd & Hq).
    erewrite bind_Ok; [|exact Hrun].
    assert (Hsh2' : shape h2 = (N0 * 2 * s + 1, N1 * 2 * s + 1)).
    { rewrite Hsh2, Hsh. f_equal; lia. }
    destruct (IH fuel (N0 * 2) (N1 * 2)
                (fdiv (fdiv scale (fsqrt (of_Z 2))) (fsqrt (of_Z 2))) h2
                (tr ++ store_events st1))
      as (h' & st2 & Hrun2 & Hsh' & Hfine & Hnd2 & Hin2 & Hlev);
      [lia|lia|lia|exact Hsh2'|rewrite Hshr, Hsh2; reflexivity|].
    fold s in Hrun2, Hfine, Hin2.
    exists h', (st1 ++ st2).
    split; [|split; [|split; [|split; [|split]]]].
    + rewrite Hrun2, store_events_app, app_assoc. reflexivity.
    + rewrite Hsh'. exact Hsh2.
    + intros r c Hl. rewrite Hfine, Hcoarse; [reflexivity|exact Hl|].
      apply on_lattice_double in Hl; [tauto|exact Hs].
    + apply NoDup_app; [exact Hnd1|exact Hnd2|].
      intros [r c] H1 H2. apply Hin1 in H1. apply Hin2 in H2. tauto.
    + intros r c. rewrite in_app_iff, Hin1, Hin2, in_grid_double.
      pose proof (on_lattice_double r c Hs) as Hdbl.
      assert (Hdec : on_lattice s r c \/ ~ on_lattice s r c).
      { unfold on_lattice.
        destruct (Z.eq_dec (r mod s) 0); destruct (Z.eq_dec (c mod s) 0); tauto. }
      tauto.
    + intros [|k] Hk.
      * unfold level_ok. cbn [scale_at Nat.iter].
        replace (S n - 0)%nat with (S n) by lia.
        replace (S n - 1)%nat with n by lia.
        rewrite pow2_succ. fold s.
        change (2 ^ Z.of_nat 0) with 1. change (2 ^ Z.of_nat 1) with 2.
        rewrite !Z.mul_1_r. split.
        -- apply diamond_ok_stable with (h := h2); assumption.
        -- apply square_ok_stable with (h := h2); assumption.
      * specialize (Hlev k ltac:(lia)). unfold level_ok in *.
        rewrite scale_at_succ.
        replace (S n - S k)%nat with (n - k)%nat by lia.
        replace (S n - S (S k))%nat with (n - S k)%nat by lia.
        rewrite (pow2_succ k), (pow2_succ (S k)).
        replace (N0 * (2 * 2 ^ Z.of_nat k)) with (N0 * 2 * 2 ^ Z.of_nat k) by lia.
        replace (N1 * (2 * 2 ^ Z.of_nat k)) with (N1 * 2 * 2 ^ Z.of_nat k) by lia.
        replace (N0 * (2 * 2 ^ Z.of_nat (S k)))
          with (N0 * 2 * 2 ^ Z.of_nat (S k)) by lia.
        replace (N1 * (2 * 2 ^ Z.of_nat (S k)))
          with (N1 * 2 * 2 ^ Z.of_nat (S k)) by lia.
        exact Hlev.
Qed.

End Refinement.

(** ** Setup and corner initialisation *)

Section Setup.

Context {V : Type} {F : Float64 V} {G : Generator V}.

Lemma shape_eqb_refl (sh : Z * Z) : shape_eqb sh sh = true.
Proof. unfold shape_eqb. rewrite !Z.eqb_refl. reflexivity. Qed.

Lemma cast_like_ok (h : ndarray V) (p : param V) tr :
  param_ok (shape h) p ->
  cast_like h p tr = Ok (param_array (shape h) p) (tr ++ param_events (shape h) p).
Proof.
  destruct p as [v|a]; simpl; intros Hok.
  - reflexivity.
  - rewrite Hok, shape_eqb_refl, app_nil_r. reflexivity.
Qed.

Lemma shape_param_array (sh : Z * Z) (p : param V) :
  param_ok sh p -> shape (param_array sh p) = sh.
Proof. destruct p; simpl; auto. Qed.

Lemma draws_of_param_events (sh : Z * Z) (p : param V) :
  draws_of (param_events sh p) = [].
Proof. destruct p; reflexivity. Qed.

Lemma stores_of_param_events (sh : Z * Z) (p : param V) :
  stores_of (param_events sh p) = [].
Proof. destruct p; reflexivity. Qed.

Lemma strided_len_grid (N S : Z) : 1 <= S -> strided_len (N * S + 1) S = N + 1.
Proof.
  intros HS. unfold strided_len. destruct (S <? 0) eqn:E; [lia|].
  replace (N * S + 1 + S - 1) with ((N + 1) * S) by lia.
  apply Z.div_mul. lia.
Qed.

Lemma In_corner_stores (S R C r c : Z) :
  1 <= S ->
  In (r, c) (corner_stores S (R, C)) <-> in_grid S R C r c /\ on_lattice S r c.
Proof.
  intros HS. unfold corner_stores, corner_shape, in_grid. cbn [fst snd].
  rewrite in_map_iff. split.
  - intros ([i j] & E & Hin). apply In_cells in Hin.
    unfold corner_pos in E. cbn [fst snd] in E. inversion E; subst r c.
    split; [nia|]. apply on_lattice_mul. exact HS.
  - intros ((Hr & Hc) & Hmr & Hmc).
    pose proof (Z.div_mod r S). pose proof (Z.div_mod c S).
    exists (r / S, c / S). split.
    + unfold corner_pos. cbn [fst snd]. f_equal; lia.
    + apply In_cells. assert (0 <= r / S) by (apply Z.div_pos; lia).
      assert (0 <= c / S) by (apply Z.div_pos; lia). nia.
Qed.

Lemma NoDup_corner_stores (S : Z) (N : Z * Z) :
  1 <= S -> NoDup (corner_stores S N).
Proof.
  intros HS. apply Injective_map_NoDup; [|apply NoDup_cells].
  intros [i j] [i' j'] E. unfold corner_pos in E. cbn [fst snd] in E.
  inversion E. f_equal; nia.
Qed.

(** Lines 17-46 on a well-formed input: the grid is allocated, the
    parameters cast, both batches drawn and each corner stored once. *)
Lemma initialise_valid (S R C : Z) (primary_scale roughness : param V)
    (base_level : V) :
  1 <= S -> 0 <= R -> 0 <= C ->
  param_ok (grid_shape S (R, C)) primary_scale ->
  param_ok (grid_shape S (R, C)) roughness ->
  scales_accepted S (R, C) primary_scale ->
  initialise S (R, C) primary_scale roughness base_level []
  = Ok (put_all (corner_pos S) (corner_value S (R, C) primary_scale base_level)
                (cells (corner_shape (R, C)))
                {| shape := grid_shape S (R, C); item := fun _ _ => of_Z 0 |},
        displacement_field S (R, C) primary_scale roughness)
       (setup_events S (R, C) primary_scale roughness
        ++ store_events (corner_stores S (R, C))).
Proof.
  intros HS HR HC Hps Hrg Hacc.
  unfold initialise, grid_shape in *. cbn [fst snd] in *.
  set (sh := (R * S + 1, C * S + 1)) in *.
  set (h0 := {| shape := sh; item := fun _ _ => of_Z 0 |}).
  assert (Ez : np_zeros sh [] = Ok h0 [NpZeros sh]).
  { unfold np_zeros, sh. cbn [fst snd].
    destruct (R * S + 1 <? 0) eqn:E1; [nia|].
    destruct (C * S + 1 <? 0) eqn:E2; [nia|]. reflexivity. }
  erewrite bind_Ok; [|exact Ez].
  erewrite bind_Ok; [|apply cast_like_ok; exact Hps].
  erewrite bind_Ok; [|apply cast_like_ok; exact Hrg].
  change (shape h0) with sh.
  set (ps := param_array sh primary_scale).
  set (rg := param_array sh roughness).
  assert (Hshps : shape ps = sh) by (apply shape_param_array; exact Hps).
  unfold strided. destruct (S =? 0) eqn:ES; [lia|].
  rewrite Hshps. unfold sh at 1 2. cbn [fst snd].
  rewrite !strided_len_grid by exact HS.
  unfold bind at 1. unfold ret at 1.
  set (tr1 := ([NpZeros sh] ++ param_events sh primary_scale)
              ++ param_events sh roughness).
  assert (Hd1 : draws_of tr1 = []).
  { unfold tr1. rewrite !draws_of_app, !draws_of_param_events. reflexivity. }
  unfold bind at 1. unfold rng_exponential at 1. cbn [shape item].
  rewrite (proj2 (forallb_forall _ _)).
  2:{ intros [i j] Hin. apply In_cells in Hin. cbn [fst snd].
      apply (Hacc i j); cbn [fst snd]; lia. }
  rewrite Hd1.
  unfold bind at 1. unfold rng_normal at 1.
  rewrite draws_of_app, Hd1. cbn [draws_of app].
  erewrite bind_Ok; [|apply np_ndindex_nonneg; lia].
  set (tr2 := (tr1 ++ _) ++ _).
  set (cv := scalar_add base_level _).
  set (rnd := arr_mul _ _).
  erewrite bind_Ok.
  2:{ apply foreach_writes
        with (pos := corner_pos S)
             (val := corner_value S (R, C) primary_scale base_level)
             (W := fun _ _ => True) (h0 := h0); auto.
      intros [i j] h tr Hin Hsh _. apply In_cells in Hin.
      unfold corner_body, corner_pos, bind. cbn [fst snd].
      rewrite getitem_inbounds by (unfold cv; cbn [shape scalar_add fst snd]; lia).
      rewrite setitem_inbounds by (rewrite Hsh; unfold h0, sh; cbn [shape fst snd]; nia).
      reflexivity. }
  unfold ret. f_equal.
  unfold tr2, tr1, setup_events, grid_shape, corner_shape, corner_stores.
  cbn [fst snd]. fold sh.
  rewrite store_events_map, <- !app_assoc. reflexivity.
Qed.

End Setup.

(** ** Whole runs *)

Lemma pow2_fuel (n : nat) : (n <= Z.to_nat (2 ^ Z.of_nat n))%nat.
Proof.
  pose proof (Z.pow_gt_lin_r 2 (Z.of_nat n)). lia.
Qed.

Section Runs.

Context {V : Type} {F : Float64 V} {G : Generator V}.

Lemma diamond_square_unfold (S : Z) (N : Z * Z) (ps rg : param V) (base : V)
    h randoms tr :
  initialise S N ps rg base [] = Ok (h, randoms) tr ->
  diamond_square S N ps rg base
  = refine (Z.to_nat S) randoms S N (fsqrt (of_Z 2)) h tr.
Proof. intros E. unfold diamond_square. erewrite bind_Ok; [|exact E]. reflexivity. Qed.

(** A run on a power-of-two square size, a non-negative number of squares
    each way, well-shaped parameters and accepted scales. *)
Lemma diamond_square_valid (n : nat) (R C : Z) (ps rg : param V) (base : V) :
  0 <= R -> 0 <= C ->
  param_ok (grid_shape (2 ^ Z.of_nat n) (R, C)) ps ->
  param_ok (grid_shape (2 ^ Z.of_nat n) (R, C)) rg ->
  scales_accepted (2 ^ Z.of_nat n) (R, C) ps ->
  exists h st,
    diamond_square (2 ^ Z.of_nat n) (R, C) ps rg base
    = Ok h (setup_events (2 ^ Z.of_nat n) (R, C) ps rg
            ++ store_events (corner_stores (2 ^ Z.of_nat n) (R, C) ++ st))
    /\ shape h = grid_shape (2 ^ Z.of_nat n) (R, C)
    /\ (forall i j, 0 <= i <= R -> 0 <= j <= C ->
          item h (i * 2 ^ Z.of_nat n) (j * 2 ^ Z.of_nat n)
          = corner_value (2 ^ Z.of_nat n) (R, C) ps base (i, j))
    /\ NoDup (corner_stores (2 ^ Z.of_nat n) (R, C) ++ st)
    /\ (forall r c, In (r, c) st
          <-> in_grid (2 ^ Z.of_nat n) R C r c /\ ~ on_lattice (2 ^ Z.of_nat n) r c)
    /\ (forall k, (k < n)%nat ->
          level_ok (displacement_field (2 ^ Z.of_nat n) (R, C) ps rg) h n R C
                   (fsqrt (of_Z 2)) k).
Proof.
  intros HR HC Hps Hrg Hacc. pose proof (pow2_pos n) as HS.
  set (S := 2 ^ Z.of_nat n) in *.
  pose proof (@initialise_valid V F G S R C ps rg base HS HR HC Hps Hrg Hacc)
    as Hinit.
  set (h0 := put_all _ _ _ _) in Hinit.
  set (randoms := displacement_field _ _ _ _) in *.
  assert (Hsh0 : shape h0 = (R * S + 1, C * S + 1)).
  { unfold h0. rewrite shape_put_all. reflexivity. }
  assert (Hshr : shape randoms = shape h0).
  { rewrite Hsh0. unfold randoms, displacement_field. cbn [shape arr_mul].
    apply (shape_param_array _ _ Hps). }
  destruct (@refine_valid V F randoms n (Z.to_nat S) R C (fsqrt (of_Z 2)) h0
              (setup_events S (R, C) ps rg ++ store_events (corner_stores S (R, C))))
    as (h & st & Hrun & Hsh & Hpres & Hnd & Hin & Hlev);
    [apply pow2_fuel|exact HR|exact HC|exact Hsh0|exact Hshr|].
  fold S in Hrun, Hpres, Hin.
  exists h, st. split; [|split; [|split; [|split; [|split]]]].
  - rewrite (diamond_square_unfold _ _ _ _ _ Hinit), Hrun.
    rewrite store_events_app, app_assoc. reflexivity.
  - rewrite Hsh. exact Hsh0.
  - intros i j Hi Hj. rewrite Hpres by (apply on_lattice_mul; exact HS).
    apply (item_put_all_at (corner_pos S) (corner_value S (R, C) ps base)
             (cells (corner_shape (R, C)))
             {| shape := grid_shape S (R, C); item := fun _ _ => of_Z 0 |} (i, j)).
    + apply NoDup_corner_stores. exact HS.
    + unfold corner_shape. cbn [fst snd]. apply In_cells. lia.
  - apply NoDup_app; [apply NoDup_corner_stores; exact HS|exact Hnd|].
    intros [r c] H1 H2. apply In_corner_stores in H1; [|exact HS].
    apply Hin in H2. tauto.
  - exact Hin.
  - exact Hlev.
Qed.

(** The loop entered at square size [m * 2 ^ n] with [m] odd and at least 3
    runs [n] levels and then fails the assertion of line 49. *)
Lemma refine_fails (randoms : ndarray V) (m : Z) (n : nat) :
  3 <= m -> m mod 2 = 1 ->
  forall fuel N0 N1 scale (h : ndarray V) tr,
    (n < fuel)%nat -> 0 <= N0 -> 0 <= N1 ->
    shape h = (N0 * (m * 2 ^ Z.of_nat n) + 1, N1 * (m * 2 ^ Z.of_nat n) + 1) ->
    shape randoms = shape h ->
    exists st,
      refine fuel randoms (m * 2 ^ Z.of_nat n) (N0, N1) scale h tr
      = Raise AssertionError (tr ++ store_events st).
Proof.
  intros Hm Hodd. induction n as [|n IH];
    intros fuel N0 N1 scale h tr Hfuel HN0 HN1 Hsh Hshr.
  - exists []. destruct fuel as [|fuel]; [lia|].
    change (2 ^ Z.of_nat 0) with 1. rewrite Z.mul_1_r. cbn [refine].
    destruct (2 <=? m) eqn:E; [|apply Z.leb_gt in E; lia].
    rewrite Hodd. cbn [Z.eqb py_assert]. simpl. rewrite app_nil_r. reflexivity.
  - destruct fuel as [|fuel]; [lia|].
    pose proof (pow2_pos n) as Hp. rewrite pow2_succ in *.
    set (s := m * 2 ^ Z.of_nat n).
    assert (Hs : 1 <= s) by (unfold s; nia).
    replace (m * (2 * 2 ^ Z.of_nat n)) with (2 * s) in * by (unfold s; lia).
    rewrite refine_step; [|lia|rewrite Z.mul_comm; apply Z.mod_mul; lia].
    rewrite double_half. cbn [fst snd].
    destruct (@level_spec V F randoms s N0 N1 scale h tr Hs HN0 HN1 Hsh Hshr)
      as (h2 & st1 & Hrun & Hsh2 & _).
    erewrite bind_Ok; [|exact Hrun].
    destruct (IH fuel (N0 * 2) (N1 * 2)
                (fdiv (fdiv scale (fsqrt (of_Z 2))) (fsqrt (of_Z 2))) h2
                (tr ++ store_events st1)) as (st2 & Hrun2);
      [lia|lia|lia| |rewrite Hshr, Hsh2; reflexivity|].
    + rewrite Hsh2, Hsh. fold s. f_equal; lia.
    + exists (st1 ++ st2). fold s in Hrun2.
      rewrite Hrun2, store_events_app, app_assoc. reflexivity.
Qed.

(** A run on a square size at least 2 that is not a power of two, written
    [m * 2 ^ n] with [m] odd: the assertion of line 49 fails in the loop,
    after the setup, both batches and the corner stores. *)
Lemma diamond_square_rejects (m : Z) (n : nat) (R C : Z) (ps rg : param V)
    (base : V) :
  3 <= m -> m mod 2 = 1 -> 0 <= R -> 0 <= C ->
  param_ok (grid_shape (m * 2 ^ Z.of_nat n) (R, C)) ps ->
  param_ok (grid_shape (m * 2 ^ Z.of_nat n) (R, C)) rg ->
  scales_accepted (m * 2 ^ Z.of_nat n) (R, C) ps ->
  exists st,
    diamond_square (m * 2 ^ Z.of_nat n) (R, C) ps rg base
    = Raise AssertionError
        (setup_events (m * 2 ^ Z.of_nat n) (R, C) ps rg
         ++ store_events (corner_stores (m * 2 ^ Z.of_nat n) (R, C) ++ st)).
Proof.
  intros Hm Hodd HR HC Hps Hrg Hacc. pose proof (pow2_pos n) as Hp.
  pose proof (pow2_fuel n) as Hf.
  set (S := m * 2 ^ Z.of_nat n) in *.
  assert (HS : 1 <= S) by (unfold S; nia).
  pose proof (@initialise_valid V F G S R C ps rg base HS HR HC Hps Hrg Hacc)
    as Hinit.
  set (h0 := put_all _ _ _ _) in Hinit.
  set (randoms := displacement_field _ _ _ _) in *.
  assert (Hsh0 : shape h0 = (R * S + 1, C * S + 1)).
  { unfold h0. rewrite shape_put_all. reflexivity. }
  assert (Hshr : shape randoms = shape h0).
  { rewrite Hsh0. unfold randoms, displacement_field. cbn [shape arr_mul].
    apply (shape_param_array _ _ Hps). }
  destruct (@refine_fails randoms m n Hm Hodd (Z.to_nat S) R C (fsqrt (of_Z 2)) h0
              (setup_events S (R, C) ps rg ++ store_events (corner_stores S (R, C))))
    as (st & Hrun); [unfold S; nia|exact HR|exact HC|exact Hsh0|exact Hshr|].
  exists st. fold S in Hrun.
  rewrite (diamond_square_unfold _ _ _ _ _ Hinit), Hrun.
  rewrite store_events_app, app_assoc. reflexivity.
Qed.

End Runs.

(** ** Properties of the synthesis *)

Section TraceOfARun.

Context {V : Type} {F : Float64 V} {G : Generator V}.

Lemma stores_of_setup_events S N (ps rg : param V) :
  stores_of (setup_events S N ps rg) = [].
Proof.
  unfold setup_events. rewrite !stores_of_app, !stores_of_param_events.
  reflexivity.
Qed.

Lemma draws_of_setup_events S N (ps rg : param V) :
  draws_of (setup_events S N ps rg)
  = [Exponential (corner_shape N); Normal (grid_shape S N)].
Proof.
  unfold setup_events. rewrite !draws_of_app, !draws_of_param_events.
  reflexivity.
Qed.

Lemma stores_of_run S N (ps rg : param V) (st : list (Z * Z)) :
  stores_of (setup_events S N ps rg ++ store_events st) = st.
Proof.
  rewrite stores_of_app, stores_of_setup_events, stores_of_store_events.
  reflexivity.
Qed.

Lemma draws_of_run S N (ps rg : param V) (st : list (Z * Z)) :
  draws_of (setup_events S N ps rg ++ store_events st)
  = [Exponential (corner_shape N); Normal (grid_shape S N)].
Proof.
  rewrite draws_of_app, draws_of_setup_events, draws_of_store_events.
  reflexivity.
Qed.

Lemma on_lattice_dec (s r c : Z) : on_lattice s r c \/ ~ on_lattice s r c.
Proof.
  unfold on_lattice.
  destruct (Z.eq_dec (r mod s) 0); destruct (Z.eq_dec (c mod s) 0); tauto.
Qed.

End TraceOfARun.

(** C4. On a power-of-two square size with well-shaped parameters the run
    returns, and the returned grid holds at every coarse lattice point
    [(i S, j S)] the base level plus the exponential variate drawn for that
    corner with the primary scale found there; the stores that follow the
    corner initialisation (those of the diamond and square steps) never
    touch a coarse lattice point. *)
Theorem corner_values_are_final {V : Type} {F : Float64 V} {G : Generator V}
    (n : nat) (R C : Z) (ps rg : param V) (base : V) :
  1 <= R -> 1 <= C ->
  param_ok (grid_shape (2 ^ Z.of_nat n) (R, C)) ps ->
  param_ok (grid_shape (2 ^ Z.of_nat n) (R, C)) rg ->
  scales_accepted (2 ^ Z.of_nat n) (R, C) ps ->
  exists h later,
    diamond_square (2 ^ Z.of_nat n) (R, C) ps rg base
    = Ok h (setup_events (2 ^ Z.of_nat n) (R, C) ps rg
            ++ store_events (corner_stores (2 ^ Z.of_nat n) (R, C) ++ later))
    /\ forall i j, 0 <= i <= R -> 0 <= j <= C ->
         item h (i * 2 ^ Z.of_nat n) (j * 2 ^ Z.of_nat n)
         = fadd base
             (exp_variate [] i j
                (item (param_array (grid_shape (2 ^ Z.of_nat n) (R, C)) ps)
                      (i * 2 ^ Z.of_nat n) (j * 2 ^ Z.of_nat n)))
         /\ ~ In (i * 2 ^ Z.of_nat n, j * 2 ^ Z.of_nat n) later.
Proof.
  intros HR HC Hps Hrg Hacc.
  destruct (@diamond_square_valid V F G n R C ps rg base)
    as (h & st & Hrun & _ & Hcorner & _ & Hin & _); try assumption; try lia.
  exists h, st. split; [exact Hrun|].
  intros i j Hi Hj. split.
  - rewrite (Hcorner i j Hi Hj). reflexivity.
  - intros Hx. apply Hin in Hx. destruct Hx as [_ Hx]. apply Hx.
    apply on_lattice_mul. apply pow2_pos.
Qed.

(** C4 on a run with one square of size 2 over binary64. *)
Lemma corner_values_are_final_witness :
  exists h later,
    diamond_square (2 ^ Z.of_nat 1) (1, 1) (Scalar 1%float) (Scalar 1%float) 0%float
    = Ok h (setup_events (2 ^ Z.of_nat 1) (1, 1) (Scalar 1%float) (Scalar 1%float)
            ++ store_events (corner_stores (2 ^ Z.of_nat 1) (1, 1) ++ later))
    /\ item h 2 2 = 4%float.
Proof.
  destruct (@corner_values_are_final float Binary64 CountingGenerator
              1%nat 1 1 (Scalar 1%float) (Scalar 1%float) 0%float)
    as (h & later & Hrun & Hc).
  - lia.
  - lia.
  - simpl. exact I.
  - simpl. exact I.
  - intros i j Hi Hj. reflexivity.
  - exists h, later. split; [exact Hrun|].
    destruct (Hc 1 1 ltac:(lia) ltac:(lia)) as [E _]. exact E.
Defined.



(** C9. With [square_size = 1] the refinement loop is left at once on
    any grid; the run returns a grid of shape [(R + 1, C + 1)] whose every
    cell is the base level plus the exponential variate of that cell,
    nothing else being added; the only stores are those of the corner
    initialisation; and the generator has delivered the exponential batch
    and then the normal batch for the whole grid. *)
Theorem unit_square_size_skips_refinement
    {V : Type} {F : Float64 V} {G : Generator V}
    (R C : Z) (ps rg : param V) (base : V) :
  1 <= R -> 1 <= C ->
  param_ok (grid_shape 1 (R, C)) ps ->
  param_ok (grid_shape 1 (R, C)) rg ->
  scales_accepted 1 (R, C) ps ->
  (forall fuel randoms N scale (h0 : ndarray V) tr0,
      refine fuel randoms 1 N scale h0 tr0 = Ok h0 tr0)
  /\ exists h,
      diamond_square 1 (R, C) ps rg base
      = Ok h (setup_events 1 (R, C) ps rg ++ store_events (corner_stores 1 (R, C)))
      /\ shape h = (R + 1, C + 1)
      /\ (forall r c, 0 <= r <= R -> 0 <= c <= C ->
            item h r c
            = fadd base (exp_variate [] r c
                           (item (param_array (grid_shape 1 (R, C)) ps) r c)))
      /\ draws_of (setup_events 1 (R, C) ps rg
                   ++ store_events (corner_stores 1 (R, C)))
         = [Exponential (R + 1, C + 1); Normal (R + 1, C + 1)].
Proof.
  intros HR HC Hps Hrg Hacc. split.
  - intros. apply refine_done. lia.
  - destruct (@diamond_square_valid V F G 0%nat R C ps rg base)
      as (h & st & Hrun & Hsh & Hcorner & _ & Hin & _); try assumption; try lia.
    change (2 ^ Z.of_nat 0) with 1 in *.
    assert (Hst : st = []).
    { destruct st as [|[r c] st]; [reflexivity|]. exfalso.
      destruct (proj1 (Hin r c) (or_introl eq_refl)) as [_ Hn]. apply Hn.
      unfold on_lattice. rewrite !Z.mod_1_r. auto. }
    subst st. rewrite app_nil_r in Hrun.
    exists h. split; [exact Hrun|]. split; [|split].
    + rewrite Hsh. unfold grid_shape. cbn [fst snd]. f_equal; lia.
    + intros r c Hr Hc. specialize (Hcorner r c Hr Hc).
      unfold corner_value in Hcorner. cbn [fst snd] in Hcorner.
      rewrite !Z.mul_1_r in Hcorner. exact Hcorner.
    + rewrite draws_of_run. unfold corner_shape, grid_shape. cbn [fst snd].
      rewrite !Z.mul_1_r. reflexivity.
Qed.

(** C9 on a run with 2 by 3 squares of size 1 over binary64. *)
Lemma unit_square_size_skips_refinement_witness :
  exists h,
    diamond_square 1 (2, 3) (Scalar 1%float) (Scalar 1%float) 0%float
    = Ok h (setup_events 1 (2, 3) (Scalar 1%float) (Scalar 1%float)
            ++ store_events (corner_stores 1 (2, 3)))
    /\ shape h = (3, 4).
Proof.
  destruct (@unit_square_size_skips_refinement float Binary64 CountingGenerator
              2 3 (Scalar 1%float) (Scalar 1%float) 0%float)
    as (_ & h & Hrun & Hsh & _).
  - lia.
  - lia.
  - simpl. exact I.
  - simpl. exact I.
  - intros i j Hi Hj. reflexivity.
  - exists h. split; [exact Hrun|exact Hsh].
Defined.

(** C5. The diamond step at square size [sz] on a grid of [N0] by [N1]
    squares returns, and for every square [(i, j)] the cell at the centre
    [(i sz + sz / 2, j sz + sz / 2)] then holds the mean of the four corner
    values [(i sz, j sz)], [(i sz, (j + 1) sz)], [((i + 1) sz, (j + 1) sz)],
    [((i + 1) sz, j sz)] (their sum divided by 4) plus [current_scale] times
    the displacement field at the centre; the corners are left as they
    were. *)
Theorem diamond_step_centres {V : Type} {F : Float64 V}
    (randoms h : ndarray V) (sz N0 N1 : Z) (current_scale : V) (tr : trace) :
  2 <= sz -> sz mod 2 = 0 -> 1 <= N0 -> 1 <= N1 ->
  shape h = (N0 * sz + 1, N1 * sz + 1) -> shape randoms = shape h ->
  exists h' tr',
    diamond_step randoms sz (N0, N1) current_scale h tr = Ok h' tr'
    /\ forall i j, 0 <= i < N0 -> 0 <= j < N1 ->
         item h' (i * sz + sz / 2) (j * sz + sz / 2)
         = fadd (fdiv (fsum [item h (i * sz) (j * sz);
                             item h (i * sz) ((j + 1) * sz);
                             item h ((i + 1) * sz) ((j + 1) * sz);
                             item h ((i + 1) * sz) (j * sz)])
                      (of_Z 4))
                (fmul current_scale
                      (item randoms (i * sz + sz / 2) (j * sz + sz / 2)))
         /\ item h' (i * sz) (j * sz) = item h (i * sz) (j * sz)
         /\ item h' (i * sz) ((j + 1) * sz) = item h (i * sz) ((j + 1) * sz)
         /\ item h' ((i + 1) * sz) ((j + 1) * sz) = item h ((i + 1) * sz) ((j + 1) * sz)
         /\ item h' ((i + 1) * sz) (j * sz) = item h ((i + 1) * sz) (j * sz).
Proof.
  intros Hsz _ HN0 HN1 Hsh Hshr.
  eexists _, _. split; [apply diamond_step_spec; try assumption; lia|].
  assert (Hcorner : forall a b,
             item (put_all (diamond_pos sz) (diamond_value randoms sz current_scale h)
                           (cells (N0, N1)) h) (a * sz) (b * sz)
             = item h (a * sz) (b * sz)).
  { intros a b. apply item_put_all_other. intros Hin.
    apply In_diamond_stores in Hin; [|exact Hsz].
    destruct Hin as [_ [Hc _]]. rewrite Z.mod_mul in Hc by lia.
    pose proof (half_pos Hsz). lia. }
  intros i j Hi Hj. split; [|repeat split; apply Hcorner].
  apply (item_put_all_at (diamond_pos sz) (diamond_value randoms sz current_scale h)
           (cells (N0, N1)) h (i, j)).
  - apply NoDup_diamond_stores. exact Hsz.
  - apply In_cells. lia.
Qed.

(** C5 on one square of size 2 over binary64. *)
Lemma diamond_step_centres_witness :
  exists h' tr',
    diamond_step {| shape := (3, 3); item := fun r c => float_of_Z (r - c) |}
                 2 (1, 1) 2%float
                 {| shape := (3, 3); item := fun r c => float_of_Z (r * c) |} []
    = Ok h' tr'
    /\ item h' 1 1 = 1%float.
Proof.
  destruct (@diamond_step_centres float Binary64
              {| shape := (3, 3); item := fun r c => float_of_Z (r - c) |}
              {| shape := (3, 3); item := fun r c => float_of_Z (r * c) |}
              2 1 1 2%float [])
    as (h' & tr' & Hrun & Hc).
  - lia.
  - reflexivity.
  - lia.
  - lia.
  - reflexivity.
  - reflexivity.
  - exists h', tr'. split; [exact Hrun|].
    destruct (Hc 0 0 ltac:(lia) ltac:(lia)) as [E _]. exact E.
Defined.

(** A size of at least 2 that does not halve to 1 is an odd number, at
    least 3, times a power of two. *)
Lemma not_halving_odd_factor (S : Z) :
  2 <= S -> ~ halves_to_one S ->
  exists m n, S = m * 2 ^ Z.of_nat n /\ 3 <= m /\ m mod 2 = 1.
Proof.
  intros HS. assert (H0 : 0 <= S) by lia. revert HS.
  pattern S. apply Z_lt_induction; [|exact H0]. clear S H0.
  intros S IH HS Hnot.
  destruct (bit_cases S) as [Heven|Hodd].
  - pose proof (Z.div_mod S 2 ltac:(lia)) as E. rewrite Heven in E.
    assert (Hs : S = 2 * (S / 2)) by lia.
    assert (Hnot' : ~ halves_to_one (S / 2)).
    { intros Hh. apply Hnot. rewrite Hs. constructor. exact Hh. }
    assert (Hge : 2 <= S / 2).
    { destruct (Z.eq_dec (S / 2) 1) as [E1|E1].
      - exfalso. apply Hnot'. rewrite E1. constructor.
      - lia. }
    destruct (IH (S / 2) ltac:(lia) Hge Hnot') as (m & n & En & Hm & Hodd).
    exists m, (Datatypes.S n). split; [|tauto].
    rewrite pow2_succ. lia.
  - exists S, 0%nat. change (2 ^ Z.of_nat 0) with 1.
    pose proof (Z.div_mod S 2 ltac:(lia)). repeat split; lia.
Qed.

(** C2, as stated, fails: with [square_size = 3] the assertion error comes
    after the grid and both parameter arrays are allocated, both batches
    drawn and the four corners stored. *)
Lemma square_size_three_fails_late :
  diamond_square 3 (1, 1) (Scalar 1%float) (Scalar 1%float) 0%float
  = Raise AssertionError
      [NpZeros (4, 4); NpFullLike (4, 4); NpFullLike (4, 4);
       Rng (Exponential (2, 2)); Rng (Normal (4, 4));
       Store 0 0; Store 0 3; Store 3 0; Store 3 3].
Proof. vm_compute. reflexivity. Qed.

(** C2, amended. For every square size of at least 2 that does not reduce
    to 1 by repeated halving (a non-negative number of squares each way,
    well-shaped parameters, accepted scales) the run fails
    with the assertion error of the refinement loop; the failure is not
    eager: by then the grid has been allocated, the exponential and the
    normal batch have been drawn and every corner has been stored. *)
Theorem invalid_square_size_fails_in_loop
    {V : Type} {F : Float64 V} {G : Generator V}
    (S R C : Z) (ps rg : param V) (base : V) :
  2 <= S -> ~ halves_to_one S -> 0 <= R -> 0 <= C ->
  param_ok (grid_shape S (R, C)) ps ->
  param_ok (grid_shape S (R, C)) rg ->
  scales_accepted S (R, C) ps ->
  exists tr,
    diamond_square S (R, C) ps rg base = Raise AssertionError tr
    /\ In (NpZeros (R * S + 1, C * S + 1)) tr
    /\ draws_of tr = [Exponential (R + 1, C + 1); Normal (R * S + 1, C * S + 1)]
    /\ incl (corner_stores S (R, C)) (stores_of tr).
Proof.
  intros HS Hnot HR HC Hps Hrg Hacc.
  destruct (not_halving_odd_factor HS Hnot) as (m & n & -> & Hm & Hodd).
  destruct (@diamond_square_rejects V F G m n R C ps rg base)
    as (st & Hrun); try assumption; try lia.
  eexists. split; [exact Hrun|]. split; [|split].
  - apply in_or_app. left. unfold setup_events, grid_shape. cbn [fst snd].
    left. reflexivity.
  - rewrite draws_of_run. reflexivity.
  - rewrite stores_of_run. apply incl_appl. apply incl_refl.
Qed.

(** C2, amended, on square size 6: one level runs, then size 3 fails. *)
Lemma invalid_square_size_fails_in_loop_witness :
  exists tr,
    diamond_square 6 (1, 1) (Scalar 1%float) (Scalar 1%float) 0%float
    = Raise AssertionError tr
    /\ draws_of tr = [Exponential (2, 2); Normal (7, 7)].
Proof.
  destruct (@invalid_square_size_fails_in_loop float Binary64 CountingGenerator
              6 1 1 (Scalar 1%float) (Scalar 1%float) 0%float)
    as (tr & Hrun & _ & Hd & _).
  - lia.
  - intros H. remember 6 as x eqn:Ex. destruct H as [|s Hs]; [lia|].
    remember s as y eqn:Ey. destruct Hs as [|s' Hs']; lia.
  - lia.
  - lia.
  - simpl. exact I.
  - simpl. exact I.
  - intros i j Hi Hj. reflexivity.
  - exists tr. split; [exact Hrun|exact Hd].
Defined.

(** C3, as stated, fails: with [num_squares = (0, 1)] the run returns a
    grid, of shape [(1, 3)]. *)
Lemma zero_squares_returns_a_grid :
  exists h tr,
    diamond_square 2 (0, 1) (Scalar 1%float) (Scalar 1%float) 0%float = Ok h tr
    /\ shape h = (1, 3).
Proof. eexists _, _. split; vm_compute; reflexivity. Qed.

(** C3, amended. The number of squares is not validated. When a
    dimension [R S + 1] or [C S + 1] of the grid is negative the run fails,
    with the ValueError of the allocation and before anything else is
    done. When [R] or [C] is zero (the other one non-negative, the square
    size a power of two, the parameters well-shaped) the run returns a grid
    of shape [(R S + 1, C S + 1)]. *)
Theorem num_squares_not_validated {V : Type} {F : Float64 V} {G : Generator V} :
  (forall S R C (ps rg : param V) (base : V),
      R * S + 1 < 0 \/ C * S + 1 < 0 ->
      diamond_square S (R, C) ps rg base = Raise ValueError [])
  /\ (forall (n : nat) R C (ps rg : param V) (base : V),
        0 <= R -> 0 <= C -> R = 0 \/ C = 0 ->
        param_ok (grid_shape (2 ^ Z.of_nat n) (R, C)) ps ->
        param_ok (grid_shape (2 ^ Z.of_nat n) (R, C)) rg ->
        scales_accepted (2 ^ Z.of_nat n) (R, C) ps ->
        exists h tr,
          diamond_square (2 ^ Z.of_nat n) (R, C) ps rg base = Ok h tr
          /\ shape h = (R * 2 ^ Z.of_nat n + 1, C * 2 ^ Z.of_nat n + 1)).
Proof.
  split.
  - intros S R C ps rg base Hneg.
    unfold diamond_square, initialise, bind, np_zeros. cbn [fst snd].
    destruct (R * S + 1 <? 0) eqn:E1; [reflexivity|].
    destruct (C * S + 1 <? 0) eqn:E2; [reflexivity|]. lia.
  - intros n R C ps rg base HR HC _ Hps Hrg Hacc.
    destruct (@diamond_square_valid V F G n R C ps rg base)
      as (h & st & Hrun & Hsh & _); try assumption.
    eexists h, _. split; [exact Hrun|exact Hsh].
Qed.

(** C3, amended, on [num_squares = (-1, 1)] and on [num_squares = (0, 3)]. *)
Lemma num_squares_not_validated_witness :
  diamond_square 2 (-1, 1) (Scalar 1%float) (Scalar 1%float) 0%float
  = Raise ValueError []
  /\ exists h tr,
      diamond_square (2 ^ Z.of_nat 2) (0, 3) (Scalar 1%float) (Scalar 1%float)
                     0%float = Ok h tr
      /\ shape h = (1, 13).
Proof.
  destruct (@num_squares_not_validated float Binary64 CountingGenerator)
    as [Hneg Hzero].
  split.
  - apply Hneg. left. lia.
  - destruct (Hzero 2%nat 0 3 (Scalar 1%float) (Scalar 1%float) 0%float)
      as (h & tr & Hrun & Hsh).
    + lia.
    + lia.
    + left. reflexivity.
    + simpl. exact I.
    + simpl. exact I.
    + intros i j Hi Hj. reflexivity.
    + exists h, tr. split; [exact Hrun|exact Hsh].
Defined.

(** C1, evaluated where it fails. With [square_size = 2] and
    [num_squares = (1, 1)] the square step reaches the edge point [(1, 0)]
    with the guards of its third and fourth samples comparing against
    [num_squares - 1]: of the three neighbours inside the grid, [(0, 0)],
    [(2, 0)] and [(1, 1)], the one at [(2, 0)] is replaced by NaN, and the
    value stored is the mean of the other two plus the displacement. The
    same happens in every square step: on a lattice of [N0] rows of
    squares, the points of row [N0 - 1] in the even columns are visited,
    their neighbour in row [N0] lies in the grid, and the guard leaves it
    out. *)
Theorem square_step_drops_a_neighbour_inside_the_grid :
  (exists h tr,
      diamond_square 2 (1, 1) (Scalar 1%float) (Scalar 1%float) 0%float = Ok h tr
      /\ shape h = (3, 3)
      /\ inbounds_neighbours (2, 2) 0 1 = [(0, 0); (2, 0); (1, 1)]
      /\ used_neighbours (2, 2) 0 1 = [(0, 0); (1, 1)]
      /\ item h 0 0 = 1%float /\ item h 2 0 = 2%float /\ item h 1 1 = 2.5%float
      /\ item h 1 0
         = fadd (np_nanmean [item h 0 0; fnan; fnan; item h 1 1])
                (fmul 1%float 0.25%float)
      /\ item h 1 0 = 2%float)
  /\ (forall N0 N1 j,
        2 <= N0 -> N0 mod 2 = 0 -> 0 <= j <= N1 -> j mod 2 = 0 ->
        In (j, N0 - 1) (square_points (N0, N1))
        /\ In (N0, j) (inbounds_neighbours (N0, N1) j (N0 - 1))
        /\ ~ In (N0, j) (used_neighbours (N0, N1) j (N0 - 1))).
Proof.
  split.
  - eexists _, _. repeat split; vm_compute; reflexivity.
  - intros N0 N1 j HN0 Heven Hj Hjeven.
    pose proof (Z.div_mod N0 2 ltac:(lia)) as E0.
    pose proof (Z.div_mod j 2 ltac:(lia)) as Ej.
    pose proof (Z.div_mod (N0 - 1 + j) 2 ltac:(lia)) as Es.
    pose proof (Z.mod_pos_bound (N0 - 1 + j) 2 ltac:(lia)) as Hb.
    split; [|split].
    + apply In_square_points; [exact Heven|]. repeat split; lia.
    + unfold inbounds_neighbours. apply filter_In. split.
      * right. right. left. f_equal. lia.
      * cbn [fst snd]. rewrite !andb_true_iff, !Z.leb_le. lia.
    + unfold used_neighbours, directions. cbn [fst snd].
      rewrite Z.ltb_irrefl.
      intros Hin. apply in_map_iff in Hin. destruct Hin as ([g q] & Eq & Hin).
      apply filter_In in Hin. destruct Hin as [Hin Hg].
      cbn [fst snd] in Eq, Hg. subst q g. cbn [In] in Hin.
      destruct Hin as [E|[E|[E|[E|[]]]]]; injection E; intros;
        try discriminate; lia.
Qed.

(** ** The scale of the displacement, over the reals *)

Lemma sqrt_two_nonzero : sqrt 2 <> 0%R.
Proof. apply Rgt_not_eq. apply sqrt_lt_R0. lra. Qed.

Lemma xsqrt_two : fsqrt (of_Z 2) = Some (sqrt 2).
Proof.
  simpl. unfold xsqrt. destruct (Rlt_dec 2 0) as [H|H]; [lra|reflexivity].
Qed.

Lemma xdiv_sqrt_two (x : R) :
  fdiv (Some x) (fsqrt (of_Z 2)) = Some (x / sqrt 2)%R.
Proof.
  rewrite xsqrt_two. simpl. unfold xdiv.
  destruct (Req_dec_T (sqrt 2) 0) as [H|H]; [|reflexivity].
  exfalso. exact (sqrt_two_nonzero H).
Qed.

Lemma scale_at_0 {V : Type} {F : Float64 V} (s : V) : scale_at s 0 = s.
Proof. reflexivity. Qed.

Lemma scale_at_S {V : Type} {F : Float64 V} (s : V) (k : nat) :
  scale_at s (S k)
  = fdiv (fdiv (scale_at s k) (fsqrt (of_Z 2))) (fsqrt (of_Z 2)).
Proof. reflexivity. Qed.

(** After [k] levels the scale that started at the square root of 2 is the
    square root of 2 over [2 ^ k]. *)
Lemma scale_at_real (k : nat) :
  scale_at (fsqrt (of_Z 2)) k = Some (sqrt 2 / 2 ^ k)%R.
Proof.
  induction k as [|k IH].
  - rewrite scale_at_0, xsqrt_two. f_equal. simpl. field.
  - rewrite scale_at_S, IH, !xdiv_sqrt_two.
    f_equal. pose proof sqrt_two_nonzero. pose proof (pow_nonzero 2 k ltac:(lra)).
    replace (2 ^ S k)%R with (sqrt 2 * sqrt 2 * 2 ^ k)%R
      by (rewrite sqrt_def by lra; simpl; ring).
    field. split; assumption.
Qed.

(** In binary64 the closed form holds up to rounding only: the scale on
    entry to level 1 is one unit in the last place below half the square
    root of 2. *)
Example binary64_scale_at_level_1 :
  @scale_at float Binary64 (fsqrt (of_Z 2)) 1 = 0x1.6a09e667f3bccp-1%float
  /\ PrimFloat.mul (PrimFloat.sqrt 2) 0.5 = 0x1.6a09e667f3bcdp-1%float.
Proof. split; vm_compute; reflexivity. Qed.

(** C7. In any arithmetic, on every valid run: the loop is entered with
    the square root of 2; the scale on entry to level [k + 1] is the scale
    on entry to level [k] divided twice by the square root of 2; the value
    the run leaves at every centre of level [k] (square size
    [2 ^ (n - k)]) is the mean of the four corners plus the scale on entry
    to level [k] times the displacement field, and the value it leaves at
    every point of the square step of level [k] is the mean of the
    neighbours read plus that scale divided once by the square root of 2
    times the displacement field. Over the reals the scale on entry to
    level [k] is [sqrt 2 / 2 ^ k] and the scale of its square step is
    [1 / 2 ^ k]. *)
Theorem displacement_scale_per_level :
  (forall (V : Type) (F : Float64 V) (G : Generator V)
          (n : nat) (R C : Z) (ps rg : param V) (base : V),
      1 <= R -> 1 <= C ->
      param_ok (grid_shape (2 ^ Z.of_nat n) (R, C)) ps ->
      param_ok (grid_shape (2 ^ Z.of_nat n) (R, C)) rg ->
      scales_accepted (2 ^ Z.of_nat n) (R, C) ps ->
      exists h tr,
        diamond_square (2 ^ Z.of_nat n) (R, C) ps rg base = Ok h tr
        /\ scale_at (fsqrt (of_Z 2)) 0 = fsqrt (of_Z 2)
        /\ forall k, (k < n)%nat ->
             scale_at (fsqrt (of_Z 2)) (S k)
             = fdiv (fdiv (scale_at (fsqrt (of_Z 2)) k) (fsqrt (of_Z 2)))
                    (fsqrt (of_Z 2))
             /\ diamond_ok (displacement_field (2 ^ Z.of_nat n) (R, C) ps rg) h
                           (2 ^ Z.of_nat (n - k)) (R * 2 ^ Z.of_nat k)
                           (C * 2 ^ Z.of_nat k) (scale_at (fsqrt (of_Z 2)) k)
             /\ square_ok (displacement_field (2 ^ Z.of_nat n) (R, C) ps rg) h
                          (2 ^ Z.of_nat (n - S k)) (R * 2 ^ Z.of_nat (S k))
                          (C * 2 ^ Z.of_nat (S k))
                          (fdiv (scale_at (fsqrt (of_Z 2)) k) (fsqrt (of_Z 2))))
  /\ (forall k : nat,
        @scale_at xreal ExtendedReal (fsqrt (of_Z 2)) k = Some (sqrt 2 / 2 ^ k)%R
        /\ fdiv (@scale_at xreal ExtendedReal (fsqrt (of_Z 2)) k) (fsqrt (of_Z 2))
           = Some (1 / 2 ^ k)%R).
Proof.
  split.
  - intros V F G n R C ps rg base HR HC Hps Hrg Hacc.
    destruct (@diamond_square_valid V F G n R C ps rg base)
      as (h & st & Hrun & _ & _ & _ & _ & Hlev); try assumption; try lia.
    eexists h, _. split; [exact Hrun|]. split; [reflexivity|].
    intros k Hk. destruct (Hlev k Hk) as [Hd Hq].
    split; [apply scale_at_S|]. split; [exact Hd|exact Hq].
  - intros k. split; [apply scale_at_real|].
    rewrite scale_at_real, xdiv_sqrt_two. f_equal.
    pose proof sqrt_two_nonzero. pose proof (pow_nonzero 2 k ltac:(lra)).
    field. split; assumption.
Qed.

(** C7 on a run with one square of size 4 over binary64, and at level 1
    over the reals. *)
Lemma displacement_scale_per_level_witness :
  (exists h tr,
      diamond_square (2 ^ Z.of_nat 2) (1, 1) (Scalar 1%float) (Scalar 1%float)
                     0%float = Ok h tr
      /\ item h 2 2
         = fadd (np_mean [item h 0 0; item h 0 4; item h 4 4; item h 4 0])
                (fmul (PrimFloat.sqrt 2) 0%float))
  /\ @scale_at xreal ExtendedReal (fsqrt (of_Z 2)) 1 = Some (sqrt 2 / 2 ^ 1)%R.
Proof.
  destruct displacement_scale_per_level as [Hrun Hreal]. split.
  - destruct (Hrun float Binary64 CountingGenerator 2%nat 1 1
                (Scalar 1%float) (Scalar 1%float) 0%float)
      as (h & tr & Hok & _ & Hk).
    + lia.
    + lia.
    + simpl. exact I.
    + simpl. exact I.
    + intros i j Hi Hj. reflexivity.
    + exists h, tr. split; [exact Hok|].
      destruct (Hk 0%nat ltac:(lia)) as (_ & Hd & _).
      exact (Hd 0 0 ltac:(lia) ltac:(lia)).
  - exact (proj1 (Hreal 1%nat)).
Defined.

(** ** Neighbours of the square step *)


(** ** Arithmetic over the extended reals *)








(** ** No NaN in a run over the reals *)

Lemma lattice_cell_index (s N r : Z) :
  1 <= s -> 0 <= r <= N * s -> r mod s = 0 ->
  r = r / s * s /\ 0 <= r / s <= N.
Proof.
  intros Hs Hr Hmod. pose proof (Z.div_mod r s ltac:(lia)).
  assert (0 <= r / s) by (apply Z.div_pos; lia). split; [lia|nia].
Qed.

Lemma pow2_split (n k : nat) :
  (k <= n)%nat -> 2 ^ Z.of_nat k * 2 ^ Z.of_nat (n - k) = 2 ^ Z.of_nat n.
Proof.
  intros Hk. rewrite <- Z.pow_add_r by lia. f_equal. lia.
Qed.





(** ** The fuel of the loop is enough *)

Section Fuel.

Context {V : Type} {F : Float64 V} {G : Generator V}.

Lemma fuelled_ret {A} (a : A) : fuelled (ret a).
Proof. intros tr tr'. discriminate. Qed.

Lemma fuelled_raise {A} (e : exn) : e <> FuelExhausted -> fuelled (@raise A e).
Proof. intros He tr tr' E. inversion E. contradiction. Qed.

Lemma fuelled_bind {A B} (m : M A) (k : A -> M B) :
  fuelled m -> (forall a, fuelled (k a)) -> fuelled (bind m k).
Proof.
  intros Hm Hk tr tr'. unfold bind.
  destruct (m tr) as [a tr1|e tr1] eqn:E.
  - apply Hk.
  - intros E'. inversion E'; subst. exact (Hm tr tr' E).
Qed.

Lemma fuelled_foreach {X A} (xs : list X) (body : X -> A -> M A) :
  (forall x a, fuelled (body x a)) -> forall a, fuelled (foreach xs body a).
Proof.
  intros Hbody. induction xs as [|x xs IH]; intros a; simpl.
  - apply fuelled_ret.
  - apply fuelled_bind; [apply Hbody|exact IH].
Qed.

Lemma fuelled_getitem (a : ndarray V) r c : fuelled (getitem a r c).
Proof.
  unfold getitem. destruct (norm_index _ r); [destruct (norm_index _ c)|];
    (apply fuelled_ret || (apply fuelled_raise; discriminate)).
Qed.

Lemma fuelled_setitem (a : ndarray V) r c v : fuelled (setitem a r c v).
Proof.
  unfold setitem. destruct (norm_index _ r); [destruct (norm_index _ c)|];
    try (apply fuelled_raise; discriminate).
  intros tr tr'. discriminate.
Qed.

Lemma fuelled_sample (a : ndarray V) g r c : fuelled (sample a g r c).
Proof. destruct g; simpl; [apply fuelled_getitem|apply fuelled_ret]. Qed.

Lemma fuelled_np_ndindex (sh : Z * Z) : fuelled (np_ndindex sh).
Proof.
  unfold np_ndindex. destruct (_ || _);
    [apply fuelled_raise; discriminate|apply fuelled_ret].
Qed.

Lemma fuelled_diamond_step (randoms : ndarray V) sz N scale h :
  fuelled (diamond_step randoms sz N scale h).
Proof.
  unfold diamond_step. apply fuelled_bind; [apply fuelled_np_ndindex|].
  intros idx. apply fuelled_foreach. intros x a. unfold diamond_body.
  repeat (apply fuelled_bind; [apply fuelled_getitem|intros ?]).
  apply fuelled_setitem.
Qed.

Lemma fuelled_square_step (randoms : ndarray V) sz N scale h :
  fuelled (square_step randoms sz N scale h).
Proof.
  unfold square_step. apply fuelled_foreach. intros j a.
  apply fuelled_foreach. intros i a'. unfold square_body.
  repeat (apply fuelled_bind; [apply fuelled_sample|intros ?]).
  apply fuelled_bind; [apply fuelled_getitem|intros ?].
  apply fuelled_setitem.
Qed.

Lemma fuelled_refine (randoms : ndarray V) (fuel : nat) :
  forall sz N scale h, sz <= Z.of_nat fuel ->
    fuelled (refine fuel randoms sz N scale h).
Proof.
  induction fuel as [|fuel IH]; intros sz N scale h Hsz; cbn [refine].
  - destruct (2 <=? sz) eqn:E; [apply Z.leb_le in E; lia|apply fuelled_ret].
  - destruct (2 <=? sz) eqn:E; [|apply fuelled_ret]. apply Z.leb_le in E.
    apply fuelled_bind.
    { unfold py_assert. destruct (_ =? _);
        [apply fuelled_ret|apply fuelled_raise; discriminate]. }
    intros _. apply fuelled_bind; [apply fuelled_diamond_step|]. intros h1.
    apply fuelled_bind; [apply fuelled_square_step|]. intros h2.
    apply IH. assert (sz / 2 < sz) by (apply Z.div_lt; lia). lia.
Qed.

Lemma fuelled_initialise S N (ps rg : param V) base :
  fuelled (initialise S N ps rg base).
Proof.
  unfold initialise.
  apply fuelled_bind.
  { unfold np_zeros. destruct (_ || _); [apply fuelled_raise; discriminate|].
    intros tr tr'. discriminate. }
  intros h. apply fuelled_bind.
  { destruct ps; simpl; [intros tr tr'; discriminate|].
    unfold py_assert. destruct (shape_eqb _ _); intros tr tr'; discriminate. }
  intros ps'. apply fuelled_bind.
  { destruct rg; simpl; [intros tr tr'; discriminate|].
    unfold py_assert. destruct (shape_eqb _ _); intros tr tr'; discriminate. }
  intros rg'. apply fuelled_bind.
  { unfold strided. destruct (_ =? _);
      [apply fuelled_raise; discriminate|apply fuelled_ret]. }
  intros cs. apply fuelled_bind.
  { intros tr tr'. unfold rng_exponential. destruct (forallb _ _); discriminate. }
  intros variates. apply fuelled_bind; [intros tr tr'; discriminate|].
  intros normals. apply fuelled_bind; [apply fuelled_np_ndindex|].
  intros idx. apply fuelled_bind; [|intros; apply fuelled_ret].
  apply fuelled_foreach. intros x a. unfold corner_body.
  apply fuelled_bind; [apply fuelled_getitem|intros; apply fuelled_setitem].
Qed.

(** Whatever the arguments, the run never stops for lack of fuel: the
    loop of the model runs as long as the loop of the source. *)
Lemma diamond_square_fuelled S N (ps rg : param V) base tr :
  diamond_square S N ps rg base <> Raise FuelExhausted tr.
Proof.
  unfold diamond_square.
  apply (@fuelled_bind _ _ (initialise S N ps rg base)).
  - apply fuelled_initialise.
  - intros [h randoms]. apply fuelled_refine. cbn [fst snd]. lia.
Qed.

End Fuel.

(** ** The tile provider *)

Section TileProvider.

Import String.
Local Open Scope string_scope.
Local Open Scope Z_scope.

Example lat_string_north : Elevmodel.lat_string 5 = "n05"%string.
Proof. reflexivity. Qed.

Example lon_string_west : Elevmodel.lon_string (-3) = "w004"%string.
Proof. reflexivity. Qed.

Example srtm_zip_name :
  Elevmodel.format_pattern
    (Elevmodel._zip_pattern (Elevmodel.SRTMGL1 "/data" Elevmodel.ZIP))
    (Elevmodel.cased (Elevmodel.SRTMGL1 "/data" Elevmodel.ZIP)
                     (Elevmodel.lat_string 47))
    (Elevmodel.cased (Elevmodel.SRTMGL1 "/data" Elevmodel.ZIP)
                     (Elevmodel.lon_string 8))
  = Some "N47E008.SRTMGL1.hgt.zip"%string.
Proof. reflexivity. Qed.

(** C10. For every latitude and longitude, a provider in ZIP format
    whose archive for that tile does not exist returns a 3601 by 3601
    array of zeros: no exception is raised. *)
Theorem missing_zip_yields_zero_tile {FS : Elevmodel.FileSystem}
    (self : Elevmodel.HgtTileProvider) (lat lon : Z) (zip_name : String.string) :
  Elevmodel._format self = Elevmodel.ZIP ->
  Elevmodel.format_pattern (Elevmodel._zip_pattern self)
    (Elevmodel.cased self (Elevmodel.lat_string lat))
    (Elevmodel.cased self (Elevmodel.lon_string lon)) = Some zip_name ->
  Elevmodel.path_exists (Elevmodel._path self) zip_name = false ->
  exists tile,
    Elevmodel.__call__ self lat lon = Elevmodel.Tile tile
    /\ shape tile = (3601, 3601)
    /\ forall r c, item tile r c = 0.
Proof.
  intros Hfmt Hname Hmissing. exists Elevmodel.zero_tile.
  split; [|split; [reflexivity|intros; reflexivity]].
  unfold Elevmodel.__call__. rewrite Hfmt, Hname, Hmissing. reflexivity.
Qed.

(** C10 for the NASADEM provider on an empty file system. *)
Lemma missing_zip_yields_zero_tile_witness :
  exists tile,
    @Elevmodel.__call__ Elevmodel.EmptyFileSystem
      (Elevmodel.NASADEM_HGT "/data" Elevmodel.ZIP) (-34) 151
    = Elevmodel.Tile tile
    /\ shape tile = (3601, 3601).
Proof.
  destruct (@missing_zip_yields_zero_tile Elevmodel.EmptyFileSystem
              (Elevmodel.NASADEM_HGT "/data" Elevmodel.ZIP) (-34) 151
              "NASADEM_HGT_s35e151.zip"%string)
    as (tile & Hcall & Hshape & _).
  - reflexivity.
  - reflexivity.
  - reflexivity.
  - exists tile. split; [exact Hcall|exact Hshape].
Defined.

End TileProvider.

(** ** More on the synthesis: rejected arguments *)

Lemma shape_eqb_false (s t : Z * Z) : s <> t -> shape_eqb s t = false.
Proof.
  destruct s as [a b], t as [c d]. intros Hne. unfold shape_eqb. cbn [fst snd].
  destruct (a =? c) eqn:E1; [|reflexivity].
  destruct (b =? d) eqn:E2; [|reflexivity].
  exfalso. apply Hne. f_equal; lia.
Qed.

Lemma np_zeros_nonneg {V : Type} {F : Float64 V} (sh : Z * Z) tr :
  0 <= fst sh -> 0 <= snd sh ->
  np_zeros sh tr
  = Ok {| shape := sh; item := fun _ _ => of_Z 0 |} (tr ++ [NpZeros sh]).
Proof.
  intros H1 H2. unfold np_zeros.
  destruct (fst sh <? 0) eqn:E1; [lia|]. destruct (snd sh <? 0) eqn:E2; [lia|].
  reflexivity.
Qed.

(** X1. An array given for [primary_scale] or for [roughness] whose shape
    is not the shape of the grid makes the run fail with the assertion
    error of lines 24 and 29; at that point the grid is allocated but
    nothing has been drawn from the generator and nothing stored. *)
Theorem mismatched_array_is_rejected {V : Type} {F : Float64 V} {G : Generator V}
    (S R C : Z) (ps rg : param V) (base : V) :
  0 <= R * S + 1 -> 0 <= C * S + 1 ->
  ~ param_ok (grid_shape S (R, C)) ps
  \/ (param_ok (grid_shape S (R, C)) ps /\ ~ param_ok (grid_shape S (R, C)) rg) ->
  exists tr,
    diamond_square S (R, C) ps rg base = Raise AssertionError tr
    /\ In (NpZeros (R * S + 1, C * S + 1)) tr
    /\ draws_of tr = [] /\ stores_of tr = [].
Proof.
  intros HH HW Hbad. unfold grid_shape in Hbad. cbn [fst snd] in Hbad.
  set (sh := (R * S + 1, C * S + 1)) in *.
  set (h0 := {| shape := sh; item := fun _ _ : Z => of_Z 0 |}).
  assert (Hcast : forall (p : param V) tr, ~ param_ok sh p ->
             cast_like h0 p tr = Raise AssertionError tr).
  { intros [v|a] tr Hp; [exfalso; apply Hp; exact I|].
    cbn [param_ok] in Hp. unfold cast_like, bind, py_assert. cbn [shape h0].
    rewrite (shape_eqb_false Hp). reflexivity. }
  assert (Hinit : exists tr,
             initialise S (R, C) ps rg base [] = Raise AssertionError tr
             /\ In (NpZeros sh) tr /\ draws_of tr = [] /\ stores_of tr = []).
  { unfold initialise. cbn [fst snd]. fold sh.
    erewrite bind_Ok; [|apply np_zeros_nonneg; assumption]. fold h0. cbn [app].
    destruct Hbad as [Hps|[Hps Hrg]].
    - exists [NpZeros sh]. split; [|repeat split; try reflexivity; left; reflexivity].
      apply bind_Raise. apply Hcast. exact Hps.
    - exists ([NpZeros sh] ++ param_events sh ps). split.
      + erewrite bind_Ok; [|apply cast_like_ok; exact Hps].
        apply bind_Raise. apply Hcast. exact Hrg.
      + split; [left; reflexivity|].
        rewrite draws_of_app, stores_of_app, draws_of_param_events,
          stores_of_param_events. split; reflexivity. }
  destruct Hinit as (tr & Hinit & Hrest). exists tr. split; [|exact Hrest].
  unfold diamond_square. apply bind_Raise. exact Hinit.
Qed.

(** X1 on a 2 by 2 array given for a 3 by 3 grid. *)
Lemma mismatched_array_is_rejected_witness :
  exists tr,
    diamond_square 2 (1, 1)
      (Array {| shape := (2, 2); item := fun _ _ => 1%float |})
      (Scalar 1%float) 0%float = Raise AssertionError tr
    /\ draws_of tr = [].
Proof.
  destruct (@mismatched_array_is_rejected float Binary64 CountingGenerator 2 1 1
              (Array {| shape := (2, 2); item := fun _ _ => 1%float |})
              (Scalar 1%float) 0%float) as (tr & Hrun & _ & Hd & _).
  - lia.
  - lia.
  - left. simpl. intros E. discriminate E.
  - exists tr. split; [exact Hrun|exact Hd].
Defined.

(** X2. With [square_size = 0] (and array parameters, if any, of the
    1 by 1 shape of the grid) the run fails with the ValueError of the
    zero slice step of lines 32-34: the grid and the parameter arrays are
    allocated, nothing is drawn and nothing stored. *)
Theorem zero_square_size_is_a_value_error
    {V : Type} {F : Float64 V} {G : Generator V}
    (R C : Z) (ps rg : param V) (base : V) :
  param_ok (1, 1) ps -> param_ok (1, 1) rg ->
  diamond_square 0 (R, C) ps rg base
  = Raise ValueError ([NpZeros (1, 1)] ++ param_events (1, 1) ps
                      ++ param_events (1, 1) rg).
Proof.
  intros Hps Hrg. unfold diamond_square. apply bind_Raise.
  unfold initialise. cbn [fst snd]. rewrite !Z.mul_0_r, !Z.add_0_l.
  erewrite bind_Ok; [|apply np_zeros_nonneg; cbn [fst snd]; lia].
  erewrite bind_Ok; [|apply cast_like_ok; exact Hps].
  erewrite bind_Ok; [|apply cast_like_ok; exact Hrg].
  cbn [shape app]. apply bind_Raise. unfold strided. cbn [Z.eqb].
  reflexivity.
Qed.

(** X2 on scalar parameters. *)
Lemma zero_square_size_is_a_value_error_witness :
  diamond_square 0 (3, 2) (Scalar 1%float) (Scalar 1%float) 0%float
  = Raise ValueError [NpZeros (1, 1); NpFullLike (1, 1); NpFullLike (1, 1)].
Proof.
  apply (@zero_square_size_is_a_value_error float Binary64 CountingGenerator
           3 2 (Scalar 1%float) (Scalar 1%float) 0%float).
  - simpl. exact I.
  - simpl. exact I.
Defined.

(** ** More on the synthesis: which sizes are accepted *)

Lemma halves_to_one_pow2 (n : nat) : halves_to_one (2 ^ Z.of_nat n).
Proof.
  induction n as [|n IH].
  - change (2 ^ Z.of_nat 0) with 1. constructor.
  - rewrite pow2_succ. constructor. exact IH.
Qed.

Lemma halves_to_one_is_pow2 (S : Z) :
  halves_to_one S -> exists n : nat, S = 2 ^ Z.of_nat n.
Proof.
  induction 1 as [|s Hs [n IH]].
  - exists 0%nat. reflexivity.
  - exists (Datatypes.S n). rewrite pow2_succ, IH. reflexivity.
Qed.

Lemma halves_to_one_dec (S : Z) :
  0 <= S -> halves_to_one S \/ ~ halves_to_one S.
Proof.
  intros H0. pattern S. apply Z_lt_induction; [|exact H0]. clear S H0.
  intros S IH.
  destruct (Z_le_gt_dec S 0) as [Hle|Hpos].
  - right. intros H. apply halves_to_one_is_pow2 in H. destruct H as [n ->].
    pose proof (pow2_pos n). lia.
  - destruct (Z.eq_dec S 1) as [->|Hne]; [left; constructor|].
    destruct (bit_cases S) as [Heven|Hodd].
    + pose proof (Z.div_mod S 2 ltac:(lia)) as E. rewrite Heven in E.
      destruct (IH (S / 2) ltac:(lia)) as [Hh|Hn].
      * left. replace S with (2 * (S / 2)) by lia. constructor. exact Hh.
      * right. intros H. remember S as x eqn:Ex. destruct H as [|s Hs]; [lia|].
        apply Hn. replace (2 * s / 2) with s; [exact Hs|].
        symmetry. apply double_half.
    + right. intros H. apply halves_to_one_is_pow2 in H. destruct H as [[|n] E].
      * change (2 ^ Z.of_nat 0) with 1 in E. lia.
      * rewrite pow2_succ in E. rewrite E in Hodd.
        rewrite Z.mul_comm, Z.mod_mul in Hodd; lia.
Qed.

(** X3. For a square size of at least 1 (a non-negative number of squares
    each way, well-shaped parameters, accepted scales) the run returns a
    grid exactly when the square size reduces to 1 by repeated halving;
    otherwise it ends in the assertion error. *)
Theorem returns_exactly_on_halving_sizes
    {V : Type} {F : Float64 V} {G : Generator V}
    (S R C : Z) (ps rg : param V) (base : V) :
  1 <= S -> 0 <= R -> 0 <= C ->
  param_ok (grid_shape S (R, C)) ps ->
  param_ok (grid_shape S (R, C)) rg ->
  scales_accepted S (R, C) ps ->
  ((exists h tr, diamond_square S (R, C) ps rg base = Ok h tr)
   <-> halves_to_one S)
  /\ ((exists tr, diamond_square S (R, C) ps rg base = Raise AssertionError tr)
      <-> ~ halves_to_one S).
Proof.
  intros HS HR HC Hps Hrg Hacc.
  destruct (halves_to_one_dec (S := S) ltac:(lia)) as [Hh|Hn].
  - destruct (halves_to_one_is_pow2 Hh) as [n ->].
    destruct (@diamond_square_valid V F G n R C ps rg base)
      as (h & st & Hrun & _); try assumption.
    split; split; intros H; try assumption.
    + eexists h, _. exact Hrun.
    + destruct H as [tr E]. rewrite Hrun in E. discriminate E.
    + contradiction.
  - assert (H2 : 2 <= S).
    { destruct (Z.eq_dec S 1) as [->|]; [exfalso; apply Hn; constructor|lia]. }
    destruct (not_halving_odd_factor H2 Hn) as (m & n & -> & Hm & Hodd).
    destruct (@diamond_square_rejects V F G m n R C ps rg base)
      as (st & Hrun); try assumption.
    split; split; intros H; try assumption.
    + destruct H as (h & tr & E). rewrite Hrun in E. discriminate E.
    + contradiction.
    + eexists. exact Hrun.
Qed.

(** X3 on square size 8 and on square size 12. *)
Lemma returns_exactly_on_halving_sizes_witness :
  (exists h tr,
      diamond_square 8 (1, 2) (Scalar 1%float) (Scalar 1%float) 0%float = Ok h tr)
  /\ (exists tr,
        diamond_square 12 (1, 1) (Scalar 1%float) (Scalar 1%float) 0%float
        = Raise AssertionError tr).
Proof.
  split.
  - apply (proj1 (@returns_exactly_on_halving_sizes float Binary64 CountingGenerator
                    8 1 2 (Scalar 1%float) (Scalar 1%float) 0%float
                    ltac:(lia) ltac:(lia) ltac:(lia) I I
                    (fun i j _ _ => eq_refl))).
    exact (halves_double (halves_double (halves_double halves_one))).
  - apply (proj2 (@returns_exactly_on_halving_sizes float Binary64 CountingGenerator
                    12 1 1 (Scalar 1%float) (Scalar 1%float) 0%float
                    ltac:(lia) ltac:(lia) ltac:(lia) I I
                    (fun i j _ _ => eq_refl))).
    intros H. remember 12 as x eqn:Ex. destruct H as [|s Hs]; [lia|].
    remember s as y eqn:Ey. destruct Hs as [|s' Hs']; [lia|].
    remember s' as z eqn:Ez. destruct Hs' as [|s'' Hs'']; lia.
Defined.

(** ** More on the synthesis: how many neighbours a point reads *)



(** ** More on the synthesis: the order of the stores *)

Section StoreOrder.

Context {V : Type} {F : Float64 V} {G : Generator V}.

Lemma refine_trace (randoms : ndarray V) (n : nat) :
  forall fuel N0 N1 scale (h : ndarray V) tr,
    (n <= fuel)%nat -> 0 <= N0 -> 0 <= N1 ->
    shape h = (N0 * 2 ^ Z.of_nat n + 1, N1 * 2 ^ Z.of_nat n + 1) ->
    shape randoms = shape h ->
    exists h',
      refine fuel randoms (2 ^ Z.of_nat n) (N0, N1) scale h tr
      = Ok h' (tr ++ store_events (refine_stores n N0 N1)).
Proof.
  induction n as [|n IH]; intros fuel N0 N1 scale h tr Hfuel HN0 HN1 Hsh Hshr.
  - exists h. change (2 ^ Z.of_nat 0) with 1. rewrite refine_done by lia.
    simpl. rewrite app_nil_r. reflexivity.
  - destruct fuel as [|fuel]; [lia|].
    pose proof (pow2_pos n) as Hs. cbn [refine_stores].
    rewrite pow2_succ in *. set (s := 2 ^ Z.of_nat n) in *.
    rewrite refine_step; [|lia|rewrite Z.mul_comm; apply Z.mod_mul; lia].
    rewrite double_half. cbn [fst snd].
    erewrite bind_Ok.
    2:{ erewrite bind_Ok; [|apply diamond_step_spec; try assumption; lia].
        apply square_step_spec; try lia.
        - apply Z.mod_mul. lia.
        - rewrite shape_put_all, Hsh. f_equal; lia.
        - rewrite shape_put_all. exact Hshr. }
    match goal with
    | |- context [refine fuel randoms s _ ?sc ?h2 ?tr2] =>
        destruct (IH fuel (N0 * 2) (N1 * 2) sc h2 tr2) as (h' & Hrun)
    end.
    + lia.
    + lia.
    + lia.
    + rewrite !shape_put_all, Hsh. f_equal; lia.
    + rewrite !shape_put_all. exact Hshr.
    + exists h'. fold s in Hrun. rewrite Hrun.
      rewrite !store_events_map, !store_events_app, <- !app_assoc. reflexivity.
Qed.

End StoreOrder.

(** X5. On a valid input the run stores the corners first, in row-major
    order, and then, level after level from the coarsest, all the centres
    of the diamond step followed by all the points of the square step:
    no store of a step comes before the last store of the step before it. *)
Theorem stores_follow_the_levels {V : Type} {F : Float64 V} {G : Generator V}
    (n : nat) (R C : Z) (ps rg : param V) (base : V) :
  1 <= R -> 1 <= C ->
  param_ok (grid_shape (2 ^ Z.of_nat n) (R, C)) ps ->
  param_ok (grid_shape (2 ^ Z.of_nat n) (R, C)) rg ->
  scales_accepted (2 ^ Z.of_nat n) (R, C) ps ->
  exists h tr,
    diamond_square (2 ^ Z.of_nat n) (R, C) ps rg base = Ok h tr
    /\ stores_of tr
       = map (corner_pos (2 ^ Z.of_nat n)) (cells (R + 1, C + 1))
         ++ refine_stores n R C.
Proof.
  intros HR HC Hps Hrg Hacc. pose proof (pow2_pos n) as HS.
  set (S := 2 ^ Z.of_nat n) in *.
  pose proof (@initialise_valid V F G S R C ps rg base HS ltac:(lia) ltac:(lia)
                Hps Hrg Hacc) as Hinit.
  set (h0 := put_all _ _ _ _) in Hinit.
  set (randoms := displacement_field _ _ _ _) in *.
  assert (Hsh0 : shape h0 = (R * S + 1, C * S + 1)).
  { unfold h0. rewrite shape_put_all. reflexivity. }
  assert (Hshr : shape randoms = shape h0).
  { rewrite Hsh0. unfold randoms, displacement_field. cbn [shape arr_mul].
    apply (shape_param_array _ _ Hps). }
  destruct (@refine_trace V F randoms n (Z.to_nat S) R C (fsqrt (of_Z 2)) h0
              (setup_events S (R, C) ps rg ++ store_events (corner_stores S (R, C))))
    as (h & Hrun); [apply pow2_fuel|lia|lia|exact Hsh0|exact Hshr|].
  fold S in Hrun. eexists h, _. split.
  - rewrite (diamond_square_unfold _ _ _ _ _ Hinit). exact Hrun.
  - rewrite stores_of_app, stores_of_run, stores_of_store_events. reflexivity.
Qed.

(** X5 on one square of size 2: corners, the centre, the four midpoints. *)
Lemma stores_follow_the_levels_witness :
  exists h tr,
    diamond_square (2 ^ Z.of_nat 1) (1, 1) (Scalar 1%float) (Scalar 1%float)
                   0%float = Ok h tr
    /\ stores_of tr
       = [(0, 0); (0, 2); (2, 0); (2, 2); (1, 1); (1, 0); (0, 1); (2, 1); (1, 2)].
Proof.
  exact (@stores_follow_the_levels float Binary64 CountingGenerator 1%nat 1 1
           (Scalar 1%float) (Scalar 1%float) 0%float
           ltac:(lia) ltac:(lia) I I (fun i j _ _ => eq_refl)).
Defined.

(** ** More on the synthesis: a property kept by both steps *)

Section LatticeInvariant.

Context {V : Type} {F : Float64 V}.


End LatticeInvariant.

(** ** More on the synthesis: no scale, no relief *)






(** ** Extraction: merging the tiles *)

Section Stitching.

Import ElevmodelExtract.

Lemma rfold_app {X A} (xs ys : list X) (body : X -> A -> result A) (a : A) :
  rfold (xs ++ ys) body a
  = match rfold xs body a with
    | Done a' => rfold ys body a'
    | Fail e => Fail e
    end.
Proof.
  revert a. induction xs as [|x xs IH]; intros a; simpl; [reflexivity|].
  destruct (body x a); [apply IH|reflexivity].
Qed.

Lemma span_snoc (first : Z) (k : nat) :
  span first (S k) = span first k ++ [first + Z.of_nat k * 1].
Proof. unfold span. rewrite seq_S, map_app. reflexivity. Qed.

Lemma py_range3_span (first last : Z) :
  py_range3 first (last + 1) 1 = span first (Z.to_nat (last - first + 1)).
Proof.
  unfold py_range3, span. rewrite Z.div_1_r. do 2 f_equal. lia.
Qed.

Lemma slice_bounds_inrange (len lo hi : Z) :
  0 <= lo <= hi -> hi <= len -> slice_bounds len lo hi = (lo, hi).
Proof.
  intros H1 H2. unfold slice_bounds, slice_index.
  destruct (lo <? 0) eqn:E1; [lia|]. destruct (hi <? 0) eqn:E2; [lia|].
  f_equal; lia.
Qed.

(** A tile of 3601 by 3601 stored at a place of the buffer where it fits. *)
Lemma assign_block_fits (height tile : ndarray Z) (r0 r1 c0 c1 : Z) :
  0 <= r0 -> r1 = r0 + 3601 -> r1 <= fst (shape height) ->
  0 <= c0 -> c1 = c0 + 3601 -> c1 <= snd (shape height) ->
  shape tile = (3601, 3601) ->
  exists h',
    assign_block height r0 r1 c0 c1 tile = Done h'
    /\ shape h' = shape height
    /\ forall x y,
         item h' x y
         = if (r0 <=? x) && (x <? r0 + 3601) && (c0 <=? y) && (y <? c0 + 3601)
           then int16 (item tile (x - r0) (y - c0))
           else item height x y.
Proof.
  intros Hr0 -> Hr1 Hc0 -> Hc1 Hsh. unfold assign_block.
  rewrite !slice_bounds_inrange by lia. rewrite Hsh. cbn [fst snd].
  replace (r0 + 3601 - r0) with 3601 by lia.
  replace (c0 + 3601 - c0) with 3601 by lia.
  cbn [broadcasts Z.eqb Pos.eqb orb andb].
  eexists. split; [reflexivity|]. split; [reflexivity|]. intros x y. reflexivity.
Qed.

Lemma assign_block_inside (height tile h' : ndarray Z) (r0 c0 : Z) :
  (forall x y,
     item h' x y
     = if (r0 <=? x) && (x <? r0 + 3601) && (c0 <=? y) && (y <? c0 + 3601)
       then int16 (item tile (x - r0) (y - c0))
       else item height x y) ->
  forall x y,
    (r0 <= x <= r0 + 3600 -> c0 <= y <= c0 + 3600 ->
     item h' x y = int16 (item tile (x - r0) (y - c0)))
    /\ (~ (r0 <= x <= r0 + 3600 /\ c0 <= y <= c0 + 3600) ->
        item h' x y = item height x y).
Proof.
  intros E x y. rewrite E.
  destruct ((r0 <=? x) && (x <? r0 + 3601) && (c0 <=? y) && (y <? c0 + 3601)) eqn:B.
  - rewrite !andb_true_iff, !Z.leb_le, !Z.ltb_lt in B. split; [reflexivity|lia].
  - rewrite !andb_false_iff, !Z.leb_gt, !Z.ltb_ge in B. split; [lia|reflexivity].
Qed.

Variable tile_provider_fn : tile_provider.
Variable tiles : Z -> Z -> ndarray Z.
Variables tile_min_lat tile_min_lon n m : Z.

Hypothesis provided :
  forall i j, 0 <= i < n -> 0 <= j < m ->
    tile_provider_fn (tile_min_lat + i) (tile_min_lon + j)
    = Elevmodel.Tile (tiles (tile_min_lat + i) (tile_min_lon + j))
    /\ shape (tiles (tile_min_lat + i) (tile_min_lon + j)) = (3601, 3601).

(** The inner loop over the longitudes, after [k] tiles of the band [i]. *)
Lemma band_loop (i : Z) (k : nat) :
  0 <= i < n -> Z.of_nat k <= m ->
  forall h, shape h = (n * 3600 + 1, m * 3600 + 1) ->
  exists h',
    rfold (span tile_min_lon k)
          (place_tile tile_provider_fn tile_min_lat tile_min_lon (tile_min_lat + i)) h
    = Done h'
    /\ shape h' = shape h
    /\ (forall x y,
          i * 3600 <= x <= i * 3600 + 3600 -> 0 <= y <= Z.of_nat k * 3600 ->
          (1 <= k)%nat ->
          item h' x y
          = int16 (item (tiles (tile_min_lat + i)
                               (tile_min_lon + Z.min (y / 3600) (Z.of_nat k - 1)))
                        (x - i * 3600)
                        (y - Z.min (y / 3600) (Z.of_nat k - 1) * 3600)))
    /\ (forall x y,
          ~ (i * 3600 <= x <= i * 3600 + 3600 /\ 0 <= y <= Z.of_nat k * 3600
             /\ (1 <= k)%nat) ->
          item h' x y = item h x y).
Proof.
  intros Hi. induction k as [|k IH]; intros Hk h Hsh.
  - exists h. split; [reflexivity|]. split; [reflexivity|]. split.
    + intros x y _ _ Hk1. lia.
    + intros x y _. reflexivity.
  - destruct (IH ltac:(lia) h Hsh) as (h1 & E1 & Hsh1 & Hin1 & Hout1).
    rewrite span_snoc, rfold_app, E1. cbn [rfold]. unfold place_tile.
    replace (tile_min_lon + Z.of_nat k * 1) with (tile_min_lon + Z.of_nat k) by lia.
    destruct (@provided i (Z.of_nat k) Hi ltac:(lia)) as (Ep & Hsht). rewrite Ep.
    destruct (@assign_block_fits h1 (tiles (tile_min_lat + i) (tile_min_lon + Z.of_nat k))
                ((tile_min_lat + i - tile_min_lat) * 3600)
                ((tile_min_lat + i - tile_min_lat + 1) * 3600 + 1)
                ((tile_min_lon + Z.of_nat k - tile_min_lon) * 3600)
                ((tile_min_lon + Z.of_nat k - tile_min_lon + 1) * 3600 + 1))
      as (h2 & E2 & Hsh2 & Hitem2);
      try (rewrite ?Hsh1, ?Hsh; cbn [fst snd]; lia); [exact Hsht|].
    rewrite E2. exists h2. split; [reflexivity|]. split; [congruence|].
    pose proof (@assign_block_inside _ _ _ _ _ Hitem2) as Hb.
    replace ((tile_min_lat + i - tile_min_lat) * 3600) with (i * 3600) in Hb by lia.
    replace ((tile_min_lon + Z.of_nat k - tile_min_lon) * 3600)
      with (Z.of_nat k * 3600) in Hb by lia.
    split.
    + intros x y Hx Hy _. destruct (Hb x y) as [Hnew Hold].
      destruct (Z_lt_le_dec y (Z.of_nat k * 3600)) as [Hlt|Hge].
      * rewrite Hold by lia. rewrite Hin1 by lia.
        replace (Z.min (y / 3600) (Z.of_nat (S k) - 1)) with (y / 3600) by (Z.div_mod_to_equations; lia).
        replace (Z.min (y / 3600) (Z.of_nat k - 1)) with (y / 3600) by (Z.div_mod_to_equations; lia).
        reflexivity.
      * rewrite Hnew by lia.
        replace (Z.min (y / 3600) (Z.of_nat (S k) - 1)) with (Z.of_nat k) by (Z.div_mod_to_equations; lia).
        reflexivity.
    + intros x y Hno. destruct (Hb x y) as [_ Hold].
      rewrite Hold by lia. apply Hout1. lia.
Qed.

(** The outer loop over the latitudes, after [k] bands. *)
Lemma bands_loop (k : nat) :
  1 <= m -> Z.of_nat k <= n ->
  forall h, shape h = (n * 3600 + 1, m * 3600 + 1) ->
  exists h',
    rfold (span tile_min_lat k)
          (fun lat height =>
             rfold (span tile_min_lon (Z.to_nat m))
                   (place_tile tile_provider_fn tile_min_lat tile_min_lon lat)
                   height) h
    = Done h'
    /\ shape h' = shape h
    /\ (forall x y,
          0 <= x <= Z.of_nat k * 3600 -> 0 <= y <= m * 3600 -> (1 <= k)%nat ->
          item h' x y
          = int16 (item (tiles (tile_min_lat + Z.min (x / 3600) (Z.of_nat k - 1))
                               (tile_min_lon + Z.min (y / 3600) (m - 1)))
                        (x - Z.min (x / 3600) (Z.of_nat k - 1) * 3600)
                        (y - Z.min (y / 3600) (m - 1) * 3600)))
    /\ (forall x y,
          ~ (0 <= x <= Z.of_nat k * 3600 /\ 0 <= y <= m * 3600 /\ (1 <= k)%nat) ->
          item h' x y = item h x y).
Proof.
  intros Hm. induction k as [|k IH]; intros Hk h Hsh.
  - exists h. split; [reflexivity|]. split; [reflexivity|]. split.
    + intros x y _ _ Hk1. lia.
    + intros x y _. reflexivity.
  - destruct (IH ltac:(lia) h Hsh) as (h1 & E1 & Hsh1 & Hin1 & Hout1).
    rewrite span_snoc, rfold_app, E1. cbn [rfold].
    replace (tile_min_lat + Z.of_nat k * 1) with (tile_min_lat + Z.of_nat k) by lia.
    destruct (@band_loop (Z.of_nat k) (Z.to_nat m) ltac:(lia) ltac:(lia) h1
                ltac:(congruence))
      as (h2 & E2 & Hsh2 & Hin2 & Hout2).
    rewrite E2. exists h2. split; [reflexivity|]. split; [congruence|].
    rewrite Z2Nat.id in Hin2, Hout2 by lia.
    split.
    + intros x y Hx Hy _.
      destruct (Z_lt_le_dec x (Z.of_nat k * 3600)) as [Hlt|Hge].
      * rewrite Hout2 by lia. rewrite Hin1 by lia.
        replace (Z.min (x / 3600) (Z.of_nat (S k) - 1)) with (x / 3600) by (Z.div_mod_to_equations; lia).
        replace (Z.min (x / 3600) (Z.of_nat k - 1)) with (x / 3600) by (Z.div_mod_to_equations; lia).
        reflexivity.
      * rewrite Hin2 by lia.
        replace (Z.min (x / 3600) (Z.of_nat (S k) - 1)) with (Z.of_nat k) by (Z.div_mod_to_equations; lia).
        reflexivity.
    + intros x y Hno. rewrite Hout2 by lia. apply Hout1. lia.
Qed.

End Stitching.

Section Merging.

Import ElevmodelExtract.




Lemma rfold_fails {X A} (xs : list X) (body : X -> A -> result A) (x : X) :
  In x xs -> (forall a, exists e, body x a = Fail e) ->
  forall a, exists e, rfold xs body a = Fail e.
Proof.
  intros Hin Hx. induction xs as [|y ys IH]; [destruct Hin|].
  intros a. simpl. destruct Hin as [->|Hin].
  - destruct (Hx a) as [e ->]. exists e. reflexivity.
  - destruct (body y a) as [a'|e]; [apply IH; exact Hin|exists e; reflexivity].
Qed.

Lemma In_span (first : Z) (k : nat) (z : Z) :
  first <= z < first + Z.of_nat k -> In z (span first k).
Proof.
  intros Hz. unfold span. apply in_map_iff. exists (Z.to_nat (z - first)).
  split; [lia|]. apply in_seq. lia.
Qed.

(** One tile that cannot be provided makes the merge fail. *)
Lemma merge_tiles_fails (p : tile_provider) (a b a' b' lat lon : Z) (e : Elevmodel.io_exn) :
  a <= lat <= a' -> b <= lon <= b' ->
  p lat lon = Elevmodel.TileRaise e ->
  exists e', merge_tiles p a b a' b' = Fail e'.
Proof.
  intros Hlat Hlon Hp. unfold merge_tiles.
  destruct (_ || _); [eexists; reflexivity|].
  rewrite !py_range3_span.
  apply rfold_fails with (x := lat); [apply In_span; lia|].
  intros h. apply rfold_fails with (x := lon); [apply In_span; lia|].
  intros h1. exists e. unfold place_tile. rewrite Hp. reflexivity.
Qed.

End Merging.

(** Lines 119-131: when every tile of the span is provided as a 3601 by
    3601 array, the working buffer is the mosaic of the tiles. *)
Lemma merge_tiles_stitches (tile_provider_fn : ElevmodelExtract.tile_provider)
    (tiles : Z -> Z -> ndarray Z)
    (tile_min_lat tile_min_lon tile_max_lat tile_max_lon : Z) :
  tile_min_lat <= tile_max_lat -> tile_min_lon <= tile_max_lon ->
  (forall lat lon,
     tile_min_lat <= lat <= tile_max_lat -> tile_min_lon <= lon <= tile_max_lon ->
     tile_provider_fn lat lon = Elevmodel.Tile (tiles lat lon)
     /\ shape (tiles lat lon) = (3601, 3601)) ->
  exists height,
    ElevmodelExtract.merge_tiles tile_provider_fn tile_min_lat tile_min_lon
      tile_max_lat tile_max_lon = ElevmodelExtract.Done height
    /\ shape height = ((tile_max_lat - tile_min_lat + 1) * 3600 + 1,
                       (tile_max_lon - tile_min_lon + 1) * 3600 + 1)
    /\ forall x y,
         0 <= x <= (tile_max_lat - tile_min_lat + 1) * 3600 ->
         0 <= y <= (tile_max_lon - tile_min_lon + 1) * 3600 ->
         item height x y
         = ElevmodelExtract.stitched tiles tile_min_lat tile_min_lon
             (tile_max_lat - tile_min_lat + 1) (tile_max_lon - tile_min_lon + 1) x y.
Proof.
  intros Hlat Hlon Hprov. unfold ElevmodelExtract.merge_tiles.
  set (n := tile_max_lat - tile_min_lat + 1).
  set (m := tile_max_lon - tile_min_lon + 1).
  assert (Hn : 1 <= n) by (unfold n; lia).
  assert (Hm : 1 <= m) by (unfold m; lia).
  replace ((n * 3600 + 1 <? 0) || (m * 3600 + 1 <? 0)) with false
    by (symmetry; apply orb_false_iff; split; apply Z.ltb_ge; lia).
  rewrite !py_range3_span. fold n. fold m.
  assert (Hprov' : forall i j, 0 <= i < n -> 0 <= j < m ->
            tile_provider_fn (tile_min_lat + i) (tile_min_lon + j)
            = Elevmodel.Tile (tiles (tile_min_lat + i) (tile_min_lon + j))
            /\ shape (tiles (tile_min_lat + i) (tile_min_lon + j)) = (3601, 3601))
    by (intros i j Hi Hj; apply Hprov; unfold n, m in *; lia).
  destruct (@bands_loop tile_provider_fn tiles tile_min_lat tile_min_lon n m Hprov'
              (Z.to_nat n) Hm ltac:(lia)
              {| shape := (n * 3600 + 1, m * 3600 + 1); item := fun _ _ => 0 |}
              eq_refl)
    as (h & E & Hsh & Hin & _).
  exists h. split; [exact E|]. split; [exact Hsh|].
  intros x y Hx Hy. rewrite Z2Nat.id in Hin by lia.
  unfold ElevmodelExtract.stitched. apply Hin; lia.
Qed.

(** X7. Lines 119-131 of [extract]: when every tile of the span is
    provided as a 3601 by 3601 array, the working buffer has
    [3600 * n + 1] by [3600 * m + 1] cells for [n] by [m] tiles, and the
    tile of latitude [lat] and longitude [lon] stands at the offset
    [(3600 * (lat - tile_min_lat), 3600 * (lon - tile_min_lon))], except for
    its last row when there is a tile north of it and its last column when
    there is a tile east of it: these are taken from that tile. *)
Theorem merged_buffer_is_the_mosaic (tile_provider_fn : ElevmodelExtract.tile_provider)
    (tiles : Z -> Z -> ndarray Z)
    (tile_min_lat tile_min_lon tile_max_lat tile_max_lon : Z) :
  tile_min_lat <= tile_max_lat -> tile_min_lon <= tile_max_lon ->
  (forall lat lon,
     tile_min_lat <= lat <= tile_max_lat -> tile_min_lon <= lon <= tile_max_lon ->
     tile_provider_fn lat lon = Elevmodel.Tile (tiles lat lon)
     /\ shape (tiles lat lon) = (3601, 3601)) ->
  exists height,
    ElevmodelExtract.merge_tiles tile_provider_fn tile_min_lat tile_min_lon
      tile_max_lat tile_max_lon = ElevmodelExtract.Done height
    /\ shape height = ((tile_max_lat - tile_min_lat + 1) * 3600 + 1,
                       (tile_max_lon - tile_min_lon + 1) * 3600 + 1)
    /\ forall lat lon r c,
         tile_min_lat <= lat <= tile_max_lat -> tile_min_lon <= lon <= tile_max_lon ->
         0 <= r <= 3600 -> 0 <= c <= 3600 ->
         r < 3600 \/ lat = tile_max_lat ->
         c < 3600 \/ lon = tile_max_lon ->
         item height ((lat - tile_min_lat) * 3600 + r) ((lon - tile_min_lon) * 3600 + c)
         = ElevmodelExtract.int16 (item (tiles lat lon) r c).
Proof.
  intros Hlat Hlon Hprov.
  destruct (@merge_tiles_stitches tile_provider_fn tiles tile_min_lat tile_min_lon
              tile_max_lat tile_max_lon Hlat Hlon Hprov)
    as (h & E & Hsh & Hcell).
  exists h. split; [exact E|]. split; [exact Hsh|].
  intros lat lon r c Hl Hn Hr Hc Hrow Hcol.
  rewrite Hcell by lia. unfold ElevmodelExtract.stitched.
  replace (Z.min (((lat - tile_min_lat) * 3600 + r) / 3600)
                 (tile_max_lat - tile_min_lat + 1 - 1))
    with (lat - tile_min_lat) by (Z.div_mod_to_equations; lia).
  replace (Z.min (((lon - tile_min_lon) * 3600 + c) / 3600)
                 (tile_max_lon - tile_min_lon + 1 - 1))
    with (lon - tile_min_lon) by (Z.div_mod_to_equations; lia).
  replace (tile_min_lat + (lat - tile_min_lat)) with lat by lia.
  replace (tile_min_lon + (lon - tile_min_lon)) with lon by lia.
  f_equal. f_equal; lia.
Qed.

(** X7 on two tiles side by side: the shared column comes from the
    eastern tile. *)
Lemma merged_buffer_is_the_mosaic_witness :
  exists height,
    ElevmodelExtract.merge_tiles
      (fun lat lon => Elevmodel.Tile {| shape := (3601, 3601);
                                        item := fun r c => 10 * lat + lon |})
      4 7 4 8 = ElevmodelExtract.Done height
    /\ shape height = (3601, 7201)
    /\ item height 0 3599 = 47
    /\ item height 0 3600 = 48.
Proof.
  destruct (@merged_buffer_is_the_mosaic
              (fun lat lon => Elevmodel.Tile {| shape := (3601, 3601);
                                                item := fun r c => 10 * lat + lon |})
              (fun lat lon => {| shape := (3601, 3601);
                                 item := fun r c => 10 * lat + lon |})
              4 7 4 8)
    as (h & E & Hsh & Hcell).
  - lia.
  - lia.
  - intros lat lon _ _. split; reflexivity.
  - exists h. split; [exact E|]. split; [exact Hsh|]. split.
    + apply (Hcell 4 7 0 3599); lia.
    + apply (Hcell 4 8 0 0); lia.
Defined.

(** ** Extraction: the region of interest *)

Section Region.

Import QArith Qround Lqa.
Import ElevmodelExtract.
Local Open Scope Z_scope.

















(** X11. Lines 127-131 of [extract]: when the provider raises for one
    tile of the span, [extract] raises as well; it returns no grid, not
    even one with the other tiles. *)
Theorem missing_tile_fails_the_extraction (tile_provider_fn : tile_provider)
    (min_latitude min_longitude max_latitude max_longitude : Q)
    (lat lon : Z) (err : Elevmodel.io_exn) :
  Qfloor min_latitude <= lat <= Qfloor max_latitude ->
  Qfloor min_longitude <= lon <= Qfloor max_longitude ->
  tile_provider_fn lat lon = Elevmodel.TileRaise err ->
  exists err',
    extract tile_provider_fn min_latitude min_longitude max_latitude max_longitude
    = Fail err'.
Proof.
  intros Hlat Hlon Hp.
  destruct (@merge_tiles_fails tile_provider_fn (Qfloor min_latitude)
              (Qfloor min_longitude) (Qfloor max_latitude) (Qfloor max_longitude)
              lat lon err Hlat Hlon Hp) as (err' & E).
  exists err'. unfold extract. rewrite E. reflexivity.
Qed.

(** X11 with a provider that lacks the tile at latitude 1, longitude 0. *)
Lemma missing_tile_fails_the_extraction_witness :
  exists err',
    extract (fun lat lon => if lat =? 1 then Elevmodel.TileRaise Elevmodel.FileNotFoundError
                            else Elevmodel.Tile Elevmodel.zero_tile)
            (1 # 2)%Q (1 # 2)%Q (3 # 2)%Q (3 # 2)%Q = Fail err'.
Proof.
  apply (@missing_tile_fails_the_extraction
           (fun lat lon => if lat =? 1 then Elevmodel.TileRaise Elevmodel.FileNotFoundError
                           else Elevmodel.Tile Elevmodel.zero_tile)
           (1 # 2)%Q (1 # 2)%Q (3 # 2)%Q (3 # 2)%Q 1 0 Elevmodel.FileNotFoundError).
  - vm_compute. split; discriminate.
  - vm_compute. split; discriminate.
  - reflexivity.
Defined.

End Region.

(** ** The tile provider as the source of [extract] *)

Section ProvidedTiles.

Import String.
Local Open Scope Z_scope.

Lemma be_int16_range (hi lo : Z) :
  0 <= hi < 256 -> 0 <= lo < 256 ->
  -32768 <= Elevmodel.be_int16 hi lo <= 32767.
Proof.
  intros Hhi Hlo. unfold Elevmodel.be_int16. cbv zeta.
  destruct (hi * 256 + lo <? 32768) eqn:E.
  - apply Z.ltb_lt in E. lia.
  - apply Z.ltb_ge in E. lia.
Qed.

Lemma int16_small (v : Z) :
  -32768 <= v <= 32767 -> ElevmodelExtract.int16 v = v.
Proof.
  intros Hv. unfold ElevmodelExtract.int16.
  rewrite Z.mod_small by lia. lia.
Qed.

Lemma nth_byte (raw : list Z) (k : nat) :
  Forall (fun b => 0 <= b < 256) raw -> 0 <= nth k raw 0 < 256.
Proof.
  intros Hraw. destruct (nth_in_or_default k raw 0) as [Hin| ->]; [|lia].
  rewrite Forall_forall in Hraw. apply Hraw. exact Hin.
Qed.

Lemma decode_tile_int16 (raw : list Z) (tile : ndarray Z) :
  Forall (fun b => 0 <= b < 256) raw ->
  Elevmodel.decode_tile raw = Elevmodel.Tile tile ->
  shape tile = (3601, 3601)
  /\ forall r c, -32768 <= item tile r c <= 32767.
Proof.
  intros Hraw. unfold Elevmodel.decode_tile.
  destruct (_ =? _); [|discriminate]. intros E. inversion E. subst tile.
  split; [reflexivity|]. intros r c. cbn [item].
  apply be_int16_range; apply nth_byte; exact Hraw.
Qed.

(** X12. Lines 53-71 of [HgtTileProvider.__call__]: when files hold
    bytes, a tile that is returned has 3601 rows and 3601 columns and
    every one of its cells is a signed 16-bit number, so that the store
    into the int16 buffer of [extract] leaves it as it is. *)
Theorem provided_tiles_are_int16 {FS : Elevmodel.FileSystem}
    (self : Elevmodel.HgtTileProvider) (lat lon : Z) (tile : ndarray Z) :
  (forall dir name raw,
     Elevmodel.read_file dir name = inr raw ->
     Forall (fun b => 0 <= b < 256) raw) ->
  (forall dir zip name raw,
     Elevmodel.read_zip_member dir zip name = inr raw ->
     Forall (fun b => 0 <= b < 256) raw) ->
  Elevmodel.__call__ self lat lon = Elevmodel.Tile tile ->
  shape tile = (3601, 3601)
  /\ forall r c,
       -32768 <= item tile r c <= 32767
       /\ ElevmodelExtract.int16 (item tile r c) = item tile r c.
Proof.
  intros Hfile Hzip Hcall.
  assert (H : shape tile = (3601, 3601)
              /\ forall r c, -32768 <= item tile r c <= 32767).
  { revert Hcall. unfold Elevmodel.__call__. cbv zeta.
    destruct (Elevmodel._format self).
    - destruct (Elevmodel.read_file _ _) as [e|raw] eqn:Er; [discriminate|].
      apply decode_tile_int16. eapply Hfile. exact Er.
    - destruct (Elevmodel.format_pattern _ _ _) as [zip_name|]; [|discriminate].
      destruct (negb _).
      + intros E. inversion E. split; [reflexivity|]. intros r c. cbn. lia.
      + destruct (Elevmodel.read_zip_member _ _ _) as [e|raw] eqn:Er; [discriminate|].
        apply decode_tile_int16. eapply Hzip. exact Er. }
  destruct H as [Hsh Hrange]. split; [exact Hsh|]. intros r c.
  split; [apply Hrange|apply int16_small; apply Hrange].
Qed.

(** X12 for a tile that has no archive. *)
Lemma provided_tiles_are_int16_witness :
  shape Elevmodel.zero_tile = (3601, 3601)
  /\ forall r c,
       -32768 <= item Elevmodel.zero_tile r c <= 32767
       /\ ElevmodelExtract.int16 (item Elevmodel.zero_tile r c)
          = item Elevmodel.zero_tile r c.
Proof.
  apply (@provided_tiles_are_int16 Elevmodel.EmptyFileSystem
           (Elevmodel.NASADEM_HGT "/data" Elevmodel.ZIP) (-34) 151
           Elevmodel.zero_tile).
  - intros dir name raw E. discriminate E.
  - intros dir zip name raw E. discriminate E.
  - reflexivity.
Defined.


End ProvidedTiles.

Section FlatRegion.

Import QArith Qround String.
Import ElevmodelExtract.
Local Open Scope Z_scope.



End FlatRegion.

(** ** The names of the tile files *)

Section TileNames.

Import String.
Local Open Scope Z_scope.

Lemma upper_length (s : string) : String.length (Elevmodel.upper s) = String.length s.
Proof. induction s as [|c s IH]; simpl; [reflexivity|]. rewrite IH. reflexivity. Qed.

Lemma cased_length (self : Elevmodel.HgtTileProvider) (s : string) :
  String.length (Elevmodel.cased self s) = String.length s.
Proof.
  unfold Elevmodel.cased. destruct (String.eqb _ _); [apply upper_length|reflexivity].
Qed.

Lemma cased_upper (self : Elevmodel.HgtTileProvider) (s s' : string) :
  Elevmodel.cased self s = Elevmodel.cased self s' ->
  Elevmodel.upper s = Elevmodel.upper s'.
Proof.
  unfold Elevmodel.cased. destruct (String.eqb _ _); [tauto|]. intros ->. reflexivity.
Qed.

Lemma append_inj_length (a a' b b' : string) :
  String.length a = String.length a' ->
  String.append a b = String.append a' b' -> a = a' /\ b = b'.
Proof.
  revert a'. induction a as [|c a IH]; intros [|c' a'] Hlen E; simpl in *;
    try discriminate.
  - split; [reflexivity|exact E].
  - inversion E. subst c'. destruct (IH a') as [-> ->]; [lia|assumption|].
    split; reflexivity.
Qed.

Lemma In_offsets (lo z : Z) (n : nat) :
  lo <= z < lo + Z.of_nat n -> In z (map (fun k => Z.of_nat k + lo) (seq 0 n)).
Proof.
  intros Hz. apply in_map_iff. exists (Z.to_nat (z - lo)). split; [lia|].
  apply in_seq. lia.
Qed.

Lemma names_distinct_on (f : Z -> string) (l : list Z) :
  forallb (fun a =>
     forallb (fun b =>
        implb (String.eqb (Elevmodel.upper (f a)) (Elevmodel.upper (f b))) (a =? b)) l) l
  = true ->
  forall a b, In a l -> In b l ->
    Elevmodel.upper (f a) = Elevmodel.upper (f b) -> a = b.
Proof.
  intros Hall a b Ha Hb E. rewrite forallb_forall in Hall.
  specialize (Hall a Ha). rewrite forallb_forall in Hall. specialize (Hall b Hb).
  rewrite E, String.eqb_refl in Hall. simpl in Hall. apply Z.eqb_eq. exact Hall.
Qed.

Lemma lat_names_distinct (a b : Z) :
  -90 <= a <= 90 -> -90 <= b <= 90 ->
  Elevmodel.upper (Elevmodel.lat_string a) = Elevmodel.upper (Elevmodel.lat_string b) ->
  a = b.
Proof.
  intros Ha Hb.
  apply (@names_distinct_on Elevmodel.lat_string
           (map (fun k => Z.of_nat k + -90) (seq 0 181))).
  - vm_compute. reflexivity.
  - apply In_offsets. lia.
  - apply In_offsets. lia.
Qed.

Lemma lon_names_distinct (a b : Z) :
  -180 <= a <= 180 -> -180 <= b <= 180 ->
  Elevmodel.upper (Elevmodel.lon_string a) = Elevmodel.upper (Elevmodel.lon_string b) ->
  a = b.
Proof.
  intros Ha Hb.
  apply (@names_distinct_on Elevmodel.lon_string
           (map (fun k => Z.of_nat k + -180) (seq 0 361))).
  - vm_compute. reflexivity.
  - apply In_offsets. lia.
  - apply In_offsets. lia.
Qed.

Lemma lat_name_length (a : Z) :
  -90 <= a <= 90 -> String.length (Elevmodel.lat_string a) = 3%nat.
Proof.
  intros Ha.
  assert (H : forallb (fun z => Nat.eqb (String.length (Elevmodel.lat_string z)) 3)
                (map (fun k => Z.of_nat k + -90) (seq 0 181)) = true)
    by (vm_compute; reflexivity).
  rewrite forallb_forall in H. apply Nat.eqb_eq. apply H. apply In_offsets. lia.
Qed.

Lemma lon_name_length (a : Z) :
  -180 <= a <= 180 -> String.length (Elevmodel.lon_string a) = 4%nat.
Proof.
  intros Ha.
  assert (H : forallb (fun z => Nat.eqb (String.length (Elevmodel.lon_string z)) 4)
                (map (fun k => Z.of_nat k + -180) (seq 0 361)) = true)
    by (vm_compute; reflexivity).
  rewrite forallb_forall in H. apply Nat.eqb_eq. apply H. apply In_offsets. lia.
Qed.

(** Line 66: in HGT format the file read is [hgt_filename]. *)
Lemma call_reads_hgt_filename {FS : Elevmodel.FileSystem}
    (self : Elevmodel.HgtTileProvider) (lat lon : Z) :
  Elevmodel._format self = Elevmodel.HGT ->
  Elevmodel.__call__ self lat lon
  = match Elevmodel.read_file (Elevmodel._path self)
            (ElevmodelExtract.hgt_filename self lat lon) with
    | inl e => Elevmodel.TileRaise e
    | inr raw_data => Elevmodel.decode_tile raw_data
    end.
Proof. intros Hf. unfold Elevmodel.__call__. rewrite Hf. reflexivity. Qed.

(** X14. Lines 37-51 of [HgtTileProvider.__call__]: over the latitudes
    from -90 to 90 and the longitudes from -180 to 180, and under either
    case convention, two tiles that differ in latitude or longitude are
    looked up under different file names. *)
Theorem tile_names_are_distinct (self : Elevmodel.HgtTileProvider)
    (lat lon lat' lon' : Z) :
  -90 <= lat <= 90 -> -90 <= lat' <= 90 ->
  -180 <= lon <= 180 -> -180 <= lon' <= 180 ->
  ElevmodelExtract.hgt_filename self lat lon
  = ElevmodelExtract.hgt_filename self lat' lon' ->
  lat = lat' /\ lon = lon'.
Proof.
  intros Hlat Hlat' Hlon Hlon' E. unfold ElevmodelExtract.hgt_filename in E.
  apply append_inj_length in E;
    [|rewrite !cased_length, !lat_name_length by assumption; reflexivity].
  destruct E as [E1 E2].
  apply append_inj_length in E2;
    [|rewrite !cased_length, !lon_name_length by assumption; reflexivity].
  destruct E2 as [E2 _].
  split.
  - apply lat_names_distinct; [assumption|assumption|]. eapply cased_upper. exact E1.
  - apply lon_names_distinct; [assumption|assumption|]. eapply cased_upper. exact E2.
Qed.

(** X14 for the SRTM provider at one tile. *)
Lemma tile_names_are_distinct_witness :
  ElevmodelExtract.hgt_filename (Elevmodel.SRTMGL1 "/data" Elevmodel.HGT) 47 8
  = "N47E008.hgt"%string
  /\ (47 = 47 /\ 8 = 8).
Proof.
  split; [reflexivity|].
  apply (@tile_names_are_distinct (Elevmodel.SRTMGL1 "/data" Elevmodel.HGT) 47 8 47 8);
    try lia.
  reflexivity.
Defined.

End TileNames.

(** ** More on the synthesis: what the grid depends on *)

Section Agreement.

Context {V : Type} {F : Float64 V}.

(** Two grids with the same corners that both hold the values of the two
    steps, over the same displacement field, are the same grid. *)
Lemma lattice_cells_agree (randoms h1 h2 : ndarray V) (n : nat) (R C : Z) :
  1 <= R -> 1 <= C ->
  (forall i j, 0 <= i <= R -> 0 <= j <= C ->
     item h1 (i * 2 ^ Z.of_nat n) (j * 2 ^ Z.of_nat n)
     = item h2 (i * 2 ^ Z.of_nat n) (j * 2 ^ Z.of_nat n)) ->
  (forall k, (k < n)%nat -> level_ok randoms h1 n R C (fsqrt (of_Z 2)) k) ->
  (forall k, (k < n)%nat -> level_ok randoms h2 n R C (fsqrt (of_Z 2)) k) ->
  forall k, (k <= n)%nat ->
  forall r c, in_grid (2 ^ Z.of_nat n) R C r c ->
    on_lattice (2 ^ Z.of_nat (n - k)) r c -> item h1 r c = item h2 r c.
Proof.
  intros HR HC Hcorner Hlev1 Hlev2.
  induction k as [|k IH]; intros Hk r c Hg Hl.
  - replace (n - 0)%nat with n in Hl by lia.
    destruct Hg as [Hr Hc]. destruct Hl as [Hmr Hmc].
    pose proof (pow2_pos n) as Hp.
    destruct (@lattice_cell_index _ _ _ Hp Hr Hmr) as [Er Hi].
    destruct (@lattice_cell_index _ _ _ Hp Hc Hmc) as [Ec Hj].
    rewrite Er, Ec. apply Hcorner; assumption.
  - specialize (IH ltac:(lia)).
    destruct (Hlev1 k ltac:(lia)) as [Hd1 Hq1].
    destruct (Hlev2 k ltac:(lia)) as [Hd2 Hq2].
    replace (n - k)%nat with (S (n - S k)) in * by lia.
    rewrite pow2_succ in *.
    pose proof (pow2_pos (n - S k)) as Hs. pose proof (pow2_pos k) as Hpk.
    set (s := 2 ^ Z.of_nat (n - S k)) in *.
    assert (E2 : 2 ^ Z.of_nat k * (2 * s) = 2 ^ Z.of_nat n).
    { unfold s. rewrite <- pow2_succ. replace (S (n - S k)) with (n - k)%nat by lia.
      apply pow2_split. lia. }
    set (N0 := R * 2 ^ Z.of_nat k) in *. set (N1 := C * 2 ^ Z.of_nat k) in *.
    assert (HN0 : 1 <= N0) by (unfold N0; nia).
    assert (HN1 : 1 <= N1) by (unfold N1; nia).
    assert (EN0 : R * 2 ^ Z.of_nat n = N0 * (2 * s)) by (unfold N0; nia).
    assert (EN1 : C * 2 ^ Z.of_nat n = N1 * (2 * s)) by (unfold N1; nia).
    assert (EM0 : R * (2 * 2 ^ Z.of_nat k) = N0 * 2) by (unfold N0; lia).
    assert (EM1 : C * (2 * 2 ^ Z.of_nat k) = N1 * 2) by (unfold N1; lia).
    rewrite EM0, EM1 in Hq1, Hq2.
    assert (Hgrid : forall r c, in_grid (2 ^ Z.of_nat n) R C r c
                                <-> in_grid (2 * s) N0 N1 r c).
    { intros r' c'. unfold in_grid. rewrite EN0, EN1. tauto. }
    assert (Hcoarse : forall a b, 0 <= a <= N0 -> 0 <= b <= N1 ->
                        item h1 (a * (2 * s)) (b * (2 * s))
                        = item h2 (a * (2 * s)) (b * (2 * s))).
    { intros a b Ha Hb.
      apply IH; [apply Hgrid; unfold in_grid; nia|apply on_lattice_mul; lia]. }
    assert (Hcentre : forall r c, in_grid (2 * s) N0 N1 r c ->
                        centre_of (2 * s) r c -> item h1 r c = item h2 r c).
    { intros r' c' Hg' Hc'.
      assert (Hin : In (r', c') (map (diamond_pos (2 * s)) (cells (N0, N1))))
        by (apply In_diamond_stores; [lia|tauto]).
      apply in_map_iff in Hin. destruct Hin as ([i j] & E & Hin).
      apply In_cells in Hin. unfold diamond_pos in E. cbn [fst snd] in E.
      assert (Er : r' = i * (2 * s) + 2 * s / 2) by congruence.
      assert (Ec : c' = j * (2 * s) + 2 * s / 2) by congruence.
      rewrite Er, Ec, (Hd1 i j), (Hd2 i j) by lia.
      unfold diamond_value. cbn [fst snd].
      rewrite (Hcoarse i j), (Hcoarse i (j + 1)), (Hcoarse (i + 1) (j + 1)),
        (Hcoarse (i + 1) j) by lia.
      reflexivity. }
    assert (Heven : forall a b, 0 <= a <= N0 * 2 -> 0 <= b <= N1 * 2 ->
                      (a + b) mod 2 = 0 -> item h1 (a * s) (b * s) = item h2 (a * s) (b * s)).
    { intros a b Ha Hb Hab.
      assert (Hg' : in_grid (2 * s) N0 N1 (a * s) (b * s)) by (unfold in_grid; nia).
      destruct (on_lattice_dec (2 * s) (a * s) (b * s)) as [Hl2|Hl2].
      - apply IH; [apply Hgrid; exact Hg'|exact Hl2].
      - destruct (lattice_refinement (a * s) (b * s) Hs) as [Hiff _].
        destruct (proj1 Hiff (conj (@on_lattice_mul s a b Hs) Hl2)) as [Hc'|Hm].
        + apply Hcentre; assumption.
        + exfalso. exact (@lattice_not_midpoint s a b Hs Hab Hm). }
    destruct (on_lattice_dec (2 * s) r c) as [Hl2|Hl2].
    + apply IH; assumption.
    + destruct (lattice_refinement r c Hs) as [Hiff _].
      destruct (proj1 Hiff (conj Hl Hl2)) as [Hc'|Hm].
      * apply Hcentre; [apply Hgrid; exact Hg|exact Hc'].
      * assert (Hin : In (r, c) (map (square_pos s) (square_points (N0 * 2, N1 * 2)))).
        { apply In_square_stores; [exact Hs|apply Z.mod_mul; lia|].
          split; [apply in_grid_double; apply Hgrid; exact Hg|exact Hm]. }
        apply in_map_iff in Hin. destruct Hin as ([j i] & E & Hin).
        apply In_square_points in Hin; [|apply Z.mod_mul; lia].
        destruct Hin as (Hj & Hi & Hodd).
        unfold square_pos in E. cbn [fst snd] in E.
        assert (Er : r = i * s) by congruence.
        assert (Ec : c = j * s) by congruence. rewrite Er, Ec.
        rewrite (Hq1 i j Hi Hj Hodd), (Hq2 i j Hi Hj Hodd).
        unfold square_value. cbn [fst snd].
        destruct (neighbour_parity i j Hodd) as (P1 & P2 & P3 & P4).
        assert (Hpick : forall g a b, (g = true -> 0 <= a <= N0 * 2 /\ 0 <= b <= N1 * 2)
                          -> (a + b) mod 2 = 0 ->
                          pick h1 g (a * s) (b * s) = pick h2 g (a * s) (b * s)).
        { intros g a b Hgd Hab. destruct g; [|reflexivity].
          destruct (Hgd eq_refl). unfold pick. apply Heven; assumption. }
        unfold directions. cbn [map fst snd].
        rewrite (Hpick (0 <? i) (i - 1) j), (Hpick (0 <? j) i (j - 1)),
          (Hpick (i <? N0 * 2 - 1) (i + 1) j), (Hpick (j <? N1 * 2 - 1) i (j + 1));
          try assumption; try (intros Hgd; apply Z.ltb_lt in Hgd; lia).
        reflexivity.
Qed.

End Agreement.

(** X15. On a valid input the generator is asked for two batches and no
    more, however many levels are refined: the exponential variates of
    the corners first, then the normal variates of the whole grid; and
    the grid returned has [R * S + 1] rows and [C * S + 1] columns. *)
Theorem generator_is_asked_for_two_batches {V : Type} {F : Float64 V} {G : Generator V}
    (n : nat) (R C : Z) (ps rg : param V) (base : V) :
  0 <= R -> 0 <= C ->
  param_ok (grid_shape (2 ^ Z.of_nat n) (R, C)) ps ->
  param_ok (grid_shape (2 ^ Z.of_nat n) (R, C)) rg ->
  scales_accepted (2 ^ Z.of_nat n) (R, C) ps ->
  exists h tr,
    diamond_square (2 ^ Z.of_nat n) (R, C) ps rg base = Ok h tr
    /\ shape h = (R * 2 ^ Z.of_nat n + 1, C * 2 ^ Z.of_nat n + 1)
    /\ draws_of tr
       = [Exponential (R + 1, C + 1);
          Normal (R * 2 ^ Z.of_nat n + 1, C * 2 ^ Z.of_nat n + 1)].
Proof.
  intros HR HC Hps Hrg Hacc.
  destruct (@diamond_square_valid V F G n R C ps rg base HR HC Hps Hrg Hacc)
    as (h & st & E & Hsh & _).
  eexists h, _. split; [exact E|]. split; [exact Hsh|].
  rewrite draws_of_run. reflexivity.
Qed.

(** X15 on two by three squares of size 4. *)
Lemma generator_is_asked_for_two_batches_witness :
  exists h tr,
    diamond_square (2 ^ Z.of_nat 2) (2, 3) (Scalar 1%float) (Scalar 1%float)
                   0%float = Ok h tr
    /\ shape h = (9, 13)
    /\ draws_of tr = [Exponential (3, 4); Normal (9, 13)].
Proof.
  exact (@generator_is_asked_for_two_batches float Binary64 CountingGenerator
           2%nat 2 3 (Scalar 1%float) (Scalar 1%float) 0%float
           ltac:(lia) ltac:(lia) I I (fun i j _ _ => eq_refl)).
Defined.

(** X16. The grid depends on [primary_scale] and [roughness] only through
    the arrays they are cast to: two valid calls whose parameters are
    cast to the same arrays return grids with the same cells. A scalar
    and the array filled with it are such parameters. *)
Theorem grid_depends_on_the_cast_parameters
    {V : Type} {F : Float64 V} {G : Generator V}
    (n : nat) (R C : Z) (ps rg ps' rg' : param V) (base : V) :
  1 <= R -> 1 <= C ->
  param_ok (grid_shape (2 ^ Z.of_nat n) (R, C)) ps ->
  param_ok (grid_shape (2 ^ Z.of_nat n) (R, C)) rg ->
  param_ok (grid_shape (2 ^ Z.of_nat n) (R, C)) ps' ->
  param_ok (grid_shape (2 ^ Z.of_nat n) (R, C)) rg' ->
  scales_accepted (2 ^ Z.of_nat n) (R, C) ps ->
  param_array (grid_shape (2 ^ Z.of_nat n) (R, C)) ps'
  = param_array (grid_shape (2 ^ Z.of_nat n) (R, C)) ps ->
  param_array (grid_shape (2 ^ Z.of_nat n) (R, C)) rg'
  = param_array (grid_shape (2 ^ Z.of_nat n) (R, C)) rg ->
  exists h tr h' tr',
    diamond_square (2 ^ Z.of_nat n) (R, C) ps rg base = Ok h tr
    /\ diamond_square (2 ^ Z.of_nat n) (R, C) ps' rg' base = Ok h' tr'
    /\ shape h' = shape h
    /\ forall r c, 0 <= r <= R * 2 ^ Z.of_nat n -> 0 <= c <= C * 2 ^ Z.of_nat n ->
         item h' r c = item h r c.
Proof.
  intros HR HC Hps Hrg Hps' Hrg' Hacc Eps Erg.
  assert (Hacc' : scales_accepted (2 ^ Z.of_nat n) (R, C) ps').
  { intros i j Hi Hj. rewrite Eps. apply Hacc; assumption. }
  destruct (@diamond_square_valid V F G n R C ps rg base
              ltac:(lia) ltac:(lia) Hps Hrg Hacc)
    as (h & st & E & Hsh & Hcorner & _ & _ & Hlev).
  destruct (@diamond_square_valid V F G n R C ps' rg' base
              ltac:(lia) ltac:(lia) Hps' Hrg' Hacc')
    as (h' & st' & E' & Hsh' & Hcorner' & _ & _ & Hlev').
  assert (Er : displacement_field (2 ^ Z.of_nat n) (R, C) ps' rg'
               = displacement_field (2 ^ Z.of_nat n) (R, C) ps rg).
  { unfold displacement_field. rewrite Eps, Erg. reflexivity. }
  rewrite Er in Hlev'.
  eexists h, _, h', _. split; [exact E|]. split; [exact E'|].
  split; [congruence|]. intros r c Hr Hc.
  apply (@lattice_cells_agree V F (displacement_field (2 ^ Z.of_nat n) (R, C) ps rg)
           h' h n R C HR HC) with (k := n).
  - intros i j Hi Hj. rewrite Hcorner, Hcorner' by assumption.
    unfold corner_value. rewrite Eps. reflexivity.
  - exact Hlev'.
  - exact Hlev.
  - lia.
  - split; assumption.
  - rewrite Nat.sub_diag. split; apply Z.mod_1_r.
Qed.

(** X16 for the scalar 1 and the array of ones. *)
Lemma grid_depends_on_the_cast_parameters_witness :
  exists h tr h' tr',
    diamond_square (2 ^ Z.of_nat 1) (1, 1) (Scalar 1%float) (Scalar 1%float)
                   0%float = Ok h tr
    /\ diamond_square (2 ^ Z.of_nat 1) (1, 1)
         (Array {| shape := (3, 3); item := fun _ _ => 1%float |})
         (Scalar 1%float) 0%float = Ok h' tr'
    /\ shape h' = shape h
    /\ forall r c, 0 <= r <= 2 -> 0 <= c <= 2 -> item h' r c = item h r c.
Proof.
  exact (@grid_depends_on_the_cast_parameters float Binary64 CountingGenerator
           1%nat 1 1 (Scalar 1%float) (Scalar 1%float)
           (Array {| shape := (3, 3); item := fun _ _ => 1%float |})
           (Scalar 1%float) 0%float
           ltac:(lia) ltac:(lia) I I eq_refl I (fun i j _ _ => eq_refl)
           eq_refl eq_refl).
Defined.

(** X17. Lines 68-84: the square step at stride [sz] on a lattice of
    [N0] by [N1] squares, [N0] even, returns, and every lattice point
    [(i, j)] with [i + j] odd then holds the mean, not-a-number entries
    left out, of the four samples the guards let through, each read from
    the grid as it was before the step, plus [current_scale] times the
    displacement field at the point; every other cell is left as it
    was. *)
Theorem square_step_midpoints {V : Type} {F : Float64 V}
    (randoms h : ndarray V) (sz N0 N1 : Z) (current_scale : V) (tr : trace) :
  1 <= sz -> 0 <= N0 -> 0 <= N1 -> N0 mod 2 = 0 ->
  shape h = (N0 * sz + 1, N1 * sz + 1) -> shape randoms = shape h ->
  exists h' tr',
    square_step randoms sz (N0, N1) current_scale h tr = Ok h' tr'
    /\ (forall i j, 0 <= i <= N0 -> 0 <= j <= N1 -> (i + j) mod 2 = 1 ->
          item h' (i * sz) (j * sz)
          = fadd (np_nanmean
                    [pick h (0 <? i) ((i - 1) * sz) (j * sz);
                     pick h (0 <? j) (i * sz) ((j - 1) * sz);
                     pick h (i <? N0 - 1) ((i + 1) * sz) (j * sz);
                     pick h (j <? N1 - 1) (i * sz) ((j + 1) * sz)])
                 (fmul current_scale (item randoms (i * sz) (j * sz))))
    /\ (forall r c, ~ (in_grid sz N0 N1 r c /\ midpoint_of sz r c) ->
          item h' r c = item h r c).
Proof.
  intros Hsz HN0 HN1 Heven Hsh Hshr.
  eexists _, _. split; [apply square_step_spec; assumption|]. split.
  - intros i j Hi Hj Hodd.
    apply (item_put_all_at (square_pos sz)
             (square_value randoms sz (N0, N1) current_scale h)
             (square_points (N0, N1)) h (j, i)).
    + apply NoDup_square_stores. exact Hsz.
    + apply In_square_points; [exact Heven|]. tauto.
  - intros r c Hno. apply item_put_all_other. intros Hin. apply Hno.
    apply In_square_stores in Hin; assumption.
Qed.

(** X17 on the lattice of one square of size 2 over binary64. *)
Lemma square_step_midpoints_witness :
  exists h' tr',
    square_step (V := float)
      {| shape := (3, 3); item := fun _ _ => 1%float |} 1 (2, 2) 1%float
      {| shape := (3, 3); item := fun r c => of_Z (r + c) |} [] = Ok h' tr'
    /\ item h' 1 2 = 3%float.
Proof.
  destruct (@square_step_midpoints float Binary64
              {| shape := (3, 3); item := fun _ _ => 1%float |}
              {| shape := (3, 3); item := fun r c => of_Z (r + c) |}
              1 2 2 1%float [])
    as (h' & tr' & E & Hmid & _); try reflexivity; try lia.
  exists h', tr'. split; [exact E|].
  change (item h' 1 2) with (item h' (1 * 1) (2 * 1)).
  rewrite (Hmid 1 2) by (try lia; reflexivity). vm_compute. reflexivity.
Defined.
